(** * The cocktail rating service of [Website/server.js]

    A shallow embedding of the five Express route handlers of the
    "cocktail of the day" application and of the parts of their run-time
    environment they rely on: the JavaScript values and built-ins they call
    ([toFixed], [padStart], [Date]), the SQL statements they send to the
    SQLite file, and the promise chain around the call to the recipe API.

    Numbers are rationals.  Where the program computes in floating point,
    in the quotient of AVG, the result is rounded to binary64. *)

From Stdlib Require Import ZArith QArith Qround Qabs List String Ascii Lia Bool.
From Stdlib Require Import NArith Permutation.
From Stdlib Require Qcanon.
From Stdlib Require Import DecimalString DecimalN DecimalPos DecimalFacts.
Import ListNotations.

Local Open Scope Z_scope.

(** ** Binary64 numbers

    A JavaScript number and an SQL REAL are IEEE 754 binary64 values.  A
    finite one is held by the rational it denotes; [round] is rounding to
    nearest, ties to even, with a significand of 53 bits, as a division or a
    conversion from an integer performs it.  The exponent is not bounded:
    overflow and subnormal numbers are outside the model. *)
Module Binary64.

(** [floor (log2 (n / d))] for positive [n] and [d]. *)
Definition log2_ratio (n d : Z) : Z :=
  let k := Z.log2 n - Z.log2 d in
  if (d * 2 ^ Z.max 0 k <=? n * 2 ^ Z.max 0 (- k)) then k else k - 1.

(** The integer nearest to [num / den], the even one of two. *)
Definition round_half_even (num den : Z) : Z :=
  let fl := num / den in
  let r := num mod den in
  if 2 * r <? den then fl
  else if den <? 2 * r then fl + 1
  else if Z.even fl then fl else fl + 1.

(** The binary64 number nearest to [q]: with [2^52 <= |q| / 2^e < 2^53] the
    significand is [|q| / 2^e] rounded to an integer. *)
Definition round (q : Q) : Q :=
  let n := Z.abs (Qnum (Qred q)) in
  let d := Z.pos (Qden (Qred q)) in
  if n =? 0 then 0%Q
  else
    let e := log2_ratio n d - 52 in
    let m := round_half_even (n * 2 ^ Z.max 0 (- e)) (d * 2 ^ Z.max 0 e) in
    (inject_Z (Z.sgn (Qnum (Qred q)) * m * 2 ^ Z.max 0 e)
     / inject_Z (2 ^ Z.max 0 (- e)))%Q.

End Binary64.

(** ** The proleptic Gregorian calendar

    SQLite's date functions and JavaScript's [Date] agree on it.  A calendar
    day is held by its day number, counted from 1970-01-01. *)
Module Calendar.

Definition DaysInYear (y : Z) : Z :=
  if negb (y mod 4 =? 0) then 365
  else if negb (y mod 100 =? 0) then 366
  else if negb (y mod 400 =? 0) then 365
  else 366.

Definition DayFromYear (y : Z) : Z :=
  365 * (y - 1970) + (y - 1969) / 4 - (y - 1901) / 100 + (y - 1601) / 400.

(** The largest [y] with [DayFromYear y <= d]: an estimate from the mean
    length of a year, corrected by at most one. *)
Definition YearFromDay (d : Z) : Z :=
  let y := 1970 + (400 * d) / 146097 in
  if d <? DayFromYear y then y - 1
  else if DayFromYear (y + 1) <=? d then y + 1
  else y.

Definition InLeapYear (d : Z) : Z :=
  if DaysInYear (YearFromDay d) =? 366 then 1 else 0.

Definition DayWithinYear (d : Z) : Z := d - DayFromYear (YearFromDay d).

(** Day number, within a year, of the first day of month [m] (0 = January). *)
Definition monthStart (m leap : Z) : Z :=
  match m with
  | 0 => 0
  | 1 => 31
  | 2 => 59 + leap
  | 3 => 90 + leap
  | 4 => 120 + leap
  | 5 => 151 + leap
  | 6 => 181 + leap
  | 7 => 212 + leap
  | 8 => 243 + leap
  | 9 => 273 + leap
  | 10 => 304 + leap
  | _ => 334 + leap
  end.

Definition MonthFromDay (d : Z) : Z :=
  let w := DayWithinYear d in
  let leap := InLeapYear d in
  if w <? 31 then 0
  else if w <? 59 + leap then 1
  else if w <? 90 + leap then 2
  else if w <? 120 + leap then 3
  else if w <? 151 + leap then 4
  else if w <? 181 + leap then 5
  else if w <? 212 + leap then 6
  else if w <? 243 + leap then 7
  else if w <? 273 + leap then 8
  else if w <? 304 + leap then 9
  else if w <? 334 + leap then 10
  else 11.

Definition DateFromDay (d : Z) : Z :=
  DayWithinYear d - monthStart (MonthFromDay d) (InLeapYear d) + 1.

(** [MakeDay(year, month, date)] of ECMAScript: the day number of the first
    of the month, plus [date - 1]; a month outside 0..11 carries into the
    year. *)
Definition MakeDay (year month date : Z) : Z :=
  let ym := year + month / 12 in
  let mn := month mod 12 in
  let leap := if DaysInYear ym =? 366 then 1 else 0 in
  DayFromYear ym + monthStart mn leap + date - 1.

End Calendar.

(** ** JavaScript values and built-ins *)
Module JS.

(** What [JSON.parse] and [response.json()] produce.  An object lists its
    properties, each name once; a string is the sequence of its code
    units. *)
#[local] Unset Elimination Schemes.
Inductive json : Type :=
| JNull
| JBool (b : bool)
| JNum (q : Q)
| JStr (s : string)
| JArr (items : list json)
| JObj (fields : list (string * json)).
#[local] Set Elimination Schemes.

(** A JavaScript expression evaluates to a JSON value or to [undefined]. *)
Definition value := option json.
Definition undefined : value := None.

(** [ToBoolean], the test behind [&&] and [? :]. *)
Definition truthy (v : value) : bool :=
  match v with
  | None => false
  | Some JNull => false
  | Some (JBool b) => b
  | Some (JNum q) => negb (Qeq_bool q 0)
  | Some (JStr s) => negb (String.eqb s "")
  | Some (JArr _) => true
  | Some (JObj _) => true
  end.

Fixpoint assoc (k : string) (fields : list (string * json)) : value :=
  match fields with
  | [] => None
  | (k', v) :: rest => if String.eqb k k' then Some v else assoc k rest
  end.

(** Decimal digits of a natural number, as [Number.prototype.toString] writes
    a non-negative integer. *)
Definition digits (n : Z) : string :=
  NilZero.string_of_uint (N.to_uint (Z.to_N n)).

(** [v.name] for a name that no prototype defines, apart from [length] on
    strings and arrays; [v] is neither [null] nor [undefined]. *)
Definition member (v : json) (name : string) : value :=
  match v with
  | JObj fields => assoc name fields
  | JArr items =>
      if String.eqb name "length"
      then Some (JNum (inject_Z (Z.of_nat (List.length items)))) else None
  | JStr s =>
      if String.eqb name "length"
      then Some (JNum (inject_Z (Z.of_nat (String.length s)))) else None
  | _ => None
  end.

(** [v[i]] for an integer index. *)
Definition element (v : json) (i : nat) : value :=
  match v with
  | JArr items => nth_error items i
  | JStr s =>
      match String.get i s with
      | Some c => Some (JStr (String c EmptyString))
      | None => None
      end
  | JObj fields => assoc (digits (Z.of_nat i)) fields
  | _ => None
  end.

(** What the handlers take from the run-time system without fixing it:
    the part of [ToNumber] that parses text (a string is read by
    StringToNumber, an array or an object is first turned into a string;
    [None] is NaN), and the time zone. *)
Class Runtime := {
  ToNumber_text : json -> option Q;
  (** offset of local time from UTC, in milliseconds *)
  LocalTZA : Z
}.

(** [v > 0]: both sides go through [ToNumber]; a comparison with NaN is
    false. *)
Definition gt_zero `{Runtime} (v : value) : bool :=
  match v with
  | None => false
  | Some JNull => false
  | Some (JBool b) => b
  | Some (JNum q) => negb (Qle_bool q 0)
  | Some other =>
      match ToNumber_text other with
      | Some q => negb (Qle_bool q 0)
      | None => false
      end
  end.

(** *** [Number.prototype.toFixed] *)

(** "Let n be an integer for which n / 10^f - x is as close to zero as
    possible. If there are two such n, pick the larger n."  Here [0 <= x]. *)
Definition nearest_scaled (x : Q) (f : nat) : Z :=
  Qfloor (x * inject_Z (10 ^ Z.of_nat f) + (1 # 2)).

Fixpoint zeros (n : nat) : string :=
  match n with
  | O => EmptyString
  | S n' => String "0" (zeros n')
  end.

(** *** [Number::toString] from 10^21 on

    "Let n, k, and s be integers such that k >= 1, 10^(k-1) <= s < 10^k,
    the Number value for s * 10^(n-k) is x, and k is as small as possible."
    [candidates x d k] are the pairs [(s, n)] for [k] digits, where [d] is
    the number of digits of the integer part of [x]. *)
Definition candidates (x : Q) (d k : Z) : list (Z * Z) :=
  filter (fun sn : Z * Z =>
            let '(s, n) := sn in
            (10 ^ (k - 1) <=? s) && (s <? 10 ^ k)
            && Qeq_bool (Binary64.round (inject_Z (s * 10 ^ (n - k)))) x)
    (flat_map (fun n => let fl := Qfloor (x / inject_Z (10 ^ (n - k))) in
                        [(fl, n); (fl + 1, n)])
              [d; d + 1]).

(** "If there are multiple possibilities for s, choose the value of s for
    which s * 10^(n-k) is closest in value to x. If there are two such
    possible values of s, choose the one that is even." *)
Definition closer (x : Q) (k : Z) (a b : Z * Z) : Z * Z :=
  let dist (sn : Z * Z) := Qabs (inject_Z (fst sn * 10 ^ (snd sn - k)) - x) in
  match (dist a ?= dist b)%Q with
  | Lt => a
  | Gt => b
  | Eq => if Z.even (fst a) then a else b
  end.

Fixpoint shortest (x : Q) (d k : Z) (fuel : nat) : option (Z * Z * Z) :=
  match fuel with
  | O => None
  | S fuel' =>
      match candidates x d k with
      | [] => shortest x d (k + 1) fuel'
      | c :: cs => let '(s, n) := fold_left (closer x k) cs c in Some (s, n, k)
      end
  end.

(** [String(x)] for the Number nearest to [x], [10^21 <= x]: the digits of
    [s], a point after the first when there are more, and the exponent
    [n - 1].  A binary64 number has a [k] of at most 17; the last case is
    not reached. *)
Definition exponential (x : Q) : string :=
  let y := Binary64.round x in
  let d := Z.of_nat (String.length (digits (Qfloor y))) in
  match shortest y d 1 17 with
  | Some (s, n, k) =>
      match digits s with
      | String c rest =>
          (String c (if (k =? 1)%Z then "" else "." ++ rest)
           ++ "e+" ++ digits (n - 1))%string
      | EmptyString => EmptyString
      end
  | None => digits (Qfloor y)
  end.

(** [x.toFixed(f)]: "If x >= 10^21, then let m be ToString(x)"; below, the
    digits of n, with a point before the last [f]. *)
Definition toFixed (x : Q) (f : nat) : string :=
  let neg := Qnum x <? 0 in
  let m :=
    if Qle_bool (inject_Z (10 ^ 21)) (Qabs x) then exponential (Qabs x)
    else
      let n := nearest_scaled (Qabs x) f in
      let m := if n =? 0 then "0"%string else digits n in
      match f with
      | O => m
      | S _ =>
          let m := if (String.length m <=? f)%nat
                   then (zeros (f + 1 - String.length m) ++ m)%string else m in
          let k := String.length m in
          (substring 0 (k - f) m ++ "." ++ substring (k - f) f m)%string
      end in
  ((if neg then "-" else "") ++ m)%string.

(** [String(n)] and [n.toString()] for an integer [n]. *)
Definition toString (n : Z) : string :=
  if n <? 0 then ("-" ++ digits (- n))%string else digits n.

(** [s.padStart(n, "0")] *)
Definition padStart (s : string) (n : nat) : string :=
  (zeros (n - String.length s) ++ s)%string.

(** *** Promises

    A settled promise; [then_] and [catch_] are [.then] and [.catch] with
    callbacks that run to completion. *)
Inductive promise (A : Type) : Type :=
| Fulfilled (a : A)
| Rejected (reason : string).
Arguments Fulfilled {A} a.
Arguments Rejected {A} reason.

Definition then_ {A B} (p : promise A) (f : A -> promise B) : promise B :=
  match p with
  | Fulfilled a => f a
  | Rejected e => Rejected e
  end.

Definition catch_ {A} (p : promise A) (h : string -> A) : A :=
  match p with
  | Fulfilled a => a
  | Rejected e => h e
  end.

(** *** [Date]

    The time functions of ECMAScript ("Time Values and Time Range").  A
    [Date] object is held by its time value, in milliseconds since the epoch
    (UTC); the getters and [setDate] work on local time, which is the time
    value shifted by the offset [LocalTZA] of the zone of the server.  The
    offset is one constant: a change of daylight-saving time within the week
    is outside the model. *)
Definition msPerDay : Z := 86400000.

Definition Day (t : Z) : Z := t / msPerDay.
Definition TimeWithinDay (t : Z) : Z := t mod msPerDay.

Definition YearFromTime (t : Z) : Z := Calendar.YearFromDay (Day t).
Definition MonthFromTime (t : Z) : Z := Calendar.MonthFromDay (Day t).
Definition DateFromTime (t : Z) : Z := Calendar.DateFromDay (Day t).
Definition WeekDay (t : Z) : Z := (Day t + 4) mod 7.

Definition MakeDate (day time : Z) : Z := day * msPerDay + time.

Definition LocalTime `{Runtime} (t : Z) : Z := t + LocalTZA.
Definition UTC `{Runtime} (t : Z) : Z := t - LocalTZA.

Definition getFullYear `{Runtime} (d : Z) : Z := YearFromTime (LocalTime d).
Definition getMonth `{Runtime} (d : Z) : Z := MonthFromTime (LocalTime d).
Definition getDate `{Runtime} (d : Z) : Z := DateFromTime (LocalTime d).
Definition getDay `{Runtime} (d : Z) : Z := WeekDay (LocalTime d).

(** [d.setDate(dt)] returns the new time value (and stores it in [d]). *)
Definition setDate `{Runtime} (d dt : Z) : Z :=
  let t := LocalTime d in
  UTC (MakeDate (Calendar.MakeDay (YearFromTime t) (MonthFromTime t) dt)
                (TimeWithinDay t)).

(** The calendar day that [d.toISOString().split('T')[0]] writes, as a day
    number: the ISO string is in UTC. *)
Definition toISODate (d : Z) : Z := Day d.

End JS.

(** ** The SQLite file [db/cocktails.db] and the statements sent to it *)
Module SQLite.

(** A row of [CocktailRatings].  [None] is SQL NULL, which a column takes
    when the request body lacks the field.  [cocktail_id] is compared as
    text; [rating] is the number that AVG reads from the column (the star
    form posts the digits of an integer); [rated_date] is the calendar day
    written as YYYY-MM-DD, by its day number. *)
Record Rating := {
  cocktail_id : option string;
  rating : option Z;
  rated_date : option Z
}.

(** A row of [Moods]. *)
Record MoodEntry := {
  ID : string;
  Mood : string
}.

(** The open database.  [fault] is the error, if any, with which the engine
    answers a statement (I/O error, locked file, missing table). *)
Record Db := {
  CocktailRatings : list Rating;
  Moods : list MoodEntry;
  fault : option string
}.

(** [column = ?] with a bound parameter: a comparison with NULL is not
    true. *)
Definition sql_eq (column parameter : option string) : bool :=
  match column, parameter with
  | Some a, Some b => String.eqb a b
  | _, _ => false
  end.

(** The aggregate AVG: a running total and a count of the values that are
    not NULL; NULL when there is none, and otherwise the quotient, in
    binary64, of the total and the count, both converted to binary64. *)
Definition avg_step (acc : Z * Z) (v : option Z) : Z * Z :=
  match v with
  | Some x => (fst acc + x, snd acc + 1)
  | None => acc
  end.

Definition AVG (column : list (option Z)) : option Q :=
  let '(total, cnt) := fold_left avg_step column (0, 0) in
  if cnt =? 0 then None
  else Some (Binary64.round (Binary64.round (inject_Z total)
                             / Binary64.round (inject_Z cnt))%Q).

(** The aggregate COUNT(column): the values that are not NULL. *)
Fixpoint COUNT {A : Type} (column : list (option A)) : Z :=
  match column with
  | [] => 0
  | Some _ :: rest => 1 + COUNT rest
  | None :: rest => COUNT rest
  end.

(** [strftime('%m', d)] and [strftime('%Y', d)]: NULL for NULL and outside
    the years 0000 to 9999, which a YYYY-MM-DD text cannot hold. *)
Definition valid_day (d : Z) : bool :=
  (0 <=? Calendar.YearFromDay d) && (Calendar.YearFromDay d <=? 9999).

Definition strftime_m (date : option Z) : option string :=
  match date with
  | Some d =>
      if valid_day d
      then Some (JS.padStart (JS.digits (Calendar.MonthFromDay d + 1)) 2)
      else None
  | None => None
  end.

Definition strftime_Y (date : option Z) : option string :=
  match date with
  | Some d =>
      if valid_day d
      then Some (JS.padStart (JS.digits (Calendar.YearFromDay d)) 4)
      else None
  | None => None
  end.

(** ORDER BY of a REAL column: NULL sorts before every number. *)
Definition sql_lt (a b : option Q) : bool :=
  match a, b with
  | None, None => false
  | None, Some _ => true
  | Some _, None => false
  | Some x, Some y => negb (Qle_bool y x)
  end.

Definition same_key (a b : option string) : bool :=
  match a, b with
  | None, None => true
  | Some x, Some y => String.eqb x y
  | _, _ => false
  end.

(** GROUP BY cocktail_id: the keys, each once (NULL is a key of its own).
    They are listed in the order in which they first occur; the engine
    sorts them, which [order_desc_limit_1] below does not depend on. *)
Fixpoint group_keys (rows : list Rating) : list (option string) :=
  match rows with
  | [] => []
  | r :: rest =>
      cocktail_id r ::
      filter (fun k => negb (same_key k (cocktail_id r))) (group_keys rest)
  end.

Definition group_rows (k : option string) (rows : list Rating) : list Rating :=
  filter (fun r => same_key (cocktail_id r) k) rows.

(** A row of the result of the two top-rated statements. *)
Record TopRow := {
  top_cocktail_id : option string;
  top_avgRating : option Q
}.

(** SELECT cocktail_id, AVG(rating) ... GROUP BY cocktail_id *)
Definition grouped_avg (rows : list Rating) : list TopRow :=
  map (fun k => {| top_cocktail_id := k;
                   top_avgRating := AVG (map rating (group_rows k rows)) |})
      (group_keys rows).

(** The order of the keys of the groups: NULL before every text, and texts
    byte by byte (the collation BINARY). *)
Definition key_lt (a b : option string) : bool :=
  match a, b with
  | None, Some _ => true
  | Some x, Some y => String.ltb x y
  | _, _ => false
  end.

(** ORDER BY avgRating DESC LIMIT 1.  SQL leaves the order of rows with equal
    averages open; the engine sorts the groups by their keys and hands them
    over in the reverse order when the averages are equal, so that of the
    groups with the greatest average the one with the greatest key comes
    first. *)
Fixpoint order_desc_limit_1 (rows : list TopRow) : option TopRow :=
  match rows with
  | [] => None
  | x :: rest =>
      match order_desc_limit_1 rest with
      | None => Some x
      | Some y =>
          if sql_lt (top_avgRating x) (top_avgRating y)
             || (negb (sql_lt (top_avgRating y) (top_avgRating x))
                 && key_lt (top_cocktail_id x) (top_cocktail_id y))
          then Some y else Some x
      end
  end.

(** [db.get(sql, params, callback)]: the arguments [(err, row)] with which
    the callback is called, for a statement whose first row is
    [statement db]. *)
Definition get {Row : Type} (db : Db) (statement : Db -> option Row)
  : option string * option Row :=
  match fault db with
  | Some e => (Some e, None)
  | None => (None, statement db)
  end.

(** SELECT ID FROM Moods WHERE Mood = ? ORDER BY RANDOM() LIMIT 1.
    [random] stands for the draw of the engine: it picks the position, among
    the matching rows, of the row that comes first. *)
Definition select_mood (mood : option string) (random : nat) (db : Db)
  : option MoodEntry :=
  let rows := filter (fun m => sql_eq (Some (Mood m)) mood) (Moods db) in
  nth_error rows (random mod List.length rows).

(** INSERT INTO CocktailRatings (cocktail_id, rating, rated_date)
    VALUES (?, ?, ?) *)
Definition insert_rating (r : Rating) (db : Db) : Db :=
  {| CocktailRatings := CocktailRatings db ++ [r];
     Moods := Moods db;
     fault := fault db |}.

(** The row of SELECT AVG(rating), COUNT(rated_date) ... *)
Record AvgRow := {
  avgRating : option Q;
  ratingCount : Z
}.

(** SELECT AVG(rating) as avgRating, COUNT(rated_date) as ratingCount
    FROM CocktailRatings WHERE cocktail_id = ?
    An aggregate without GROUP BY always yields one row. *)
Definition select_average (cocktailId : string) (db : Db) : option AvgRow :=
  let rows := filter (fun r => sql_eq (cocktail_id r) (Some cocktailId))
                     (CocktailRatings db) in
  Some {| avgRating := AVG (map rating rows);
          ratingCount := COUNT (map rated_date rows) |}.

(** SELECT cocktail_id, AVG(rating) as avgRating FROM CocktailRatings
    WHERE strftime('%m', rated_date) = $1 AND strftime('%Y', rated_date) = $2
    GROUP BY cocktail_id ORDER BY avgRating DESC LIMIT 1 *)
Definition in_month (p1 p2 : string) (r : Rating) : bool :=
  sql_eq (strftime_m (rated_date r)) (Some p1)
  && sql_eq (strftime_Y (rated_date r)) (Some p2).

Definition select_top_month (p1 p2 : string) (db : Db) : option TopRow :=
  order_desc_limit_1
    (grouped_avg (filter (in_month p1 p2) (CocktailRatings db))).

(** SELECT cocktail_id, AVG(rating) as avgRating FROM CocktailRatings
    WHERE rated_date BETWEEN date(?) AND date(?)
    GROUP BY cocktail_id ORDER BY avgRating DESC LIMIT 1
    The parameters are calendar days; YYYY-MM-DD texts compare as the days
    they write. *)
Definition date (day : Z) : option Z :=
  if valid_day day then Some day else None.

Definition between (first last : Z) (r : Rating) : bool :=
  match rated_date r, date first, date last with
  | Some d, Some lo, Some hi => (lo <=? d) && (d <=? hi)
  | _, _, _ => false
  end.

Definition select_top_week (first last : Z) (db : Db) : option TopRow :=
  order_desc_limit_1
    (grouped_avg (filter (between first last) (CocktailRatings db))).

End SQLite.

(** ** The route handlers of [server.js] *)
Module Server.

Inductive Body :=
| Json (v : JS.value)     (* res.json(v) *)
| Text (s : string).      (* res.send(s) *)

Record Response := {
  status : Z;
  body : Body
}.

Definition res_json (v : JS.value) : Response := {| status := 200; body := Json v |}.
Definition res_status_send (code : Z) (s : string) : Response :=
  {| status := code; body := Text s |}.
Definition res_status_json (code : Z) (v : JS.value) : Response :=
  {| status := code; body := Json v |}.

(** What [fetch] resolves to: only [response.json()] is used. *)
Record FetchResponse := {
  response_json : JS.promise JS.json
}.

(** What a request finds outside the process: the recipe API behind [fetch],
    the draw of RANDOM(), and the clock read by [new Date()]. *)
Record World := {
  fetch : string -> JS.promise FetchResponse;
  random : nat;
  now : Z
}.

Definition apiURL (id : string) : string :=
  ("https://www.thecocktaildb.com/api/json/v1/1/lookup.php?i=" ++ id)%string.

(** The callback of the second [.then]: [data.drinks] throws a TypeError on
    [null], which rejects the promise. *)
Definition reply_with_first_drink `{JS.Runtime} (data : JS.json)
  : JS.promise Response :=
  match data with
  | JS.JNull => JS.Rejected "TypeError"
  | _ =>
      let drinks := JS.member data "drinks" in
      match drinks with
      | Some d =>
          if JS.truthy drinks && JS.gt_zero (JS.member d "length")
          then JS.Fulfilled (res_json (JS.element d 0))
          else JS.Fulfilled (res_status_send 404 "Cocktail not found")
      | None => JS.Fulfilled (res_status_send 404 "Cocktail not found")
      end
  end.

(** The lookup of the recipe by id that ends the three recipe routes:
    fetch(apiURL).then(response => response.json()).then(...).catch(...) *)
Definition hydrate `{JS.Runtime} (w : World) (id : string) : Response :=
  JS.catch_
    (JS.then_ (JS.then_ (fetch w (apiURL id)) (fun response => response_json response))
              reply_with_first_drink)
    (fun apiError => res_status_send 500 "Error fetching from the API").

(** GET /cocktail-by-mood; [mood] is [req.query.mood]. *)
Definition cocktail_by_mood `{JS.Runtime} (w : World) (db : SQLite.Db)
  (mood : option string) : Response :=
  match SQLite.get db (SQLite.select_mood mood (random w)) with
  | (Some err, _) => res_status_send 500 "Error fetching from the database"
  | (None, Some row) => hydrate w (SQLite.ID row)
  | (None, None) => res_status_send 404 "No cocktails found for this mood"
  end.

(** The fields that POST /submit-rating takes from [req.body]. *)
Record RatingBody := {
  id : option string;
  rating : option Z;
  date : option Z
}.

(** POST /submit-rating: the database after the request, and the response. *)
Definition submit_rating (db : SQLite.Db) (b : RatingBody)
  : SQLite.Db * Response :=
  match SQLite.fault db with
  | Some err => (db, res_status_send 500 "Error saving the rating")
  | None =>
      (SQLite.insert_rating
         {| SQLite.cocktail_id := id b;
            SQLite.rating := rating b;
            SQLite.rated_date := date b |} db,
       res_json (Some (JS.JObj [("message"%string,
                                 JS.JStr "Rating submitted successfully")])))
  end.

(** GET /average-rating/:cocktailId *)
Definition average_rating (db : SQLite.Db) (cocktailId : string) : Response :=
  match SQLite.get db (SQLite.select_average cocktailId) with
  | (Some err, _) =>
      res_status_json 500
        (Some (JS.JObj [("error"%string, JS.JStr "Error fetching average rating")]))
  | (None, row) =>
      res_json (Some (JS.JObj
        [("averageRating"%string,
          match row with
          | Some r =>
              match SQLite.avgRating r with
              | Some avg =>
                  if JS.truthy (Some (JS.JNum avg))
                  then JS.JStr (JS.toFixed avg 2)
                  else JS.JStr "Not rated"
              | None => JS.JStr "Not rated"
              end
          | None => JS.JStr "Not rated"
          end);
         ("ratingCount"%string,
          match row with
          | Some r => JS.JNum (inject_Z (SQLite.ratingCount r))
          | None => JS.JNum 0
          end)]))
  end.

(** The text that a template literal writes for [row.cocktail_id]. *)
Definition template (v : option string) : string :=
  match v with
  | Some s => s
  | None => "null"
  end.

(** GET /top-rated-cocktail *)
Definition currentMonth `{JS.Runtime} (w : World) : Z := JS.getMonth (now w) + 1.
Definition currentYear `{JS.Runtime} (w : World) : Z := JS.getFullYear (now w).

Definition top_rated_cocktail `{JS.Runtime} (w : World) (db : SQLite.Db) : Response :=
  match SQLite.get db
          (SQLite.select_top_month
             (JS.padStart (JS.toString (currentMonth w)) 2)
             (JS.toString (currentYear w))) with
  | (Some err, _) =>
      res_status_send 500
        "Error fetching the top-rated cocktail for the current month"
  | (None, Some row) => hydrate w (template (SQLite.top_cocktail_id row))
  | (None, None) =>
      res_status_send 404 "No top-rated cocktails found for the current month"
  end.

(** GET /top-rated-cocktail-week *)
Definition firstDayOfWeek `{JS.Runtime} (now : Z) : Z :=
  JS.setDate now
    (JS.getDate now - JS.getDay now + (if JS.getDay now =? 0 then -6 else 1)).

Definition lastDayOfWeek `{JS.Runtime} (now : Z) : Z :=
  JS.setDate (firstDayOfWeek now) (JS.getDate (firstDayOfWeek now) + 6).

Definition top_rated_cocktail_week `{JS.Runtime} (w : World) (db : SQLite.Db)
  : Response :=
  match SQLite.get db
          (SQLite.select_top_week
             (JS.toISODate (firstDayOfWeek (now w)))
             (JS.toISODate (lastDayOfWeek (now w)))) with
  | (Some err, _) =>
      res_status_send 500
        "Error fetching the top-rated cocktail for the current week"
  | (None, Some row) => hydrate w (template (SQLite.top_cocktail_id row))
  | (None, None) =>
      res_status_send 404 "No top-rated cocktails found for the current week"
  end.

End Server.

(** ** Notions of the specification *)
Module Spec.

(** The Rating rows of a cocktail id: those that the WHERE clause keeps. *)
Definition rows_of (cocktailId : string) (db : SQLite.Db) : list SQLite.Rating :=
  filter (fun r => SQLite.sql_eq (SQLite.cocktail_id r) (Some cocktailId))
         (SQLite.CocktailRatings db).

(** The rating values r1..rN of rows, those that are not NULL. *)
Fixpoint values (rows : list SQLite.Rating) : list Z :=
  match rows with
  | [] => []
  | r :: rest =>
      match SQLite.rating r with
      | Some v => v :: values rest
      | None => values rest
      end
  end.

Definition sum (vs : list Z) : Z := fold_right Z.add 0 vs.

(** mean(r1..rN) = (r1 + ... + rN) / N *)
Definition mean (vs : list Z) : Q :=
  (inject_Z (sum vs) / inject_Z (Z.of_nat (List.length vs)))%Q.

(** The mean as binary64 arithmetic yields it: the sum and N are converted,
    and their quotient is rounded. *)
Definition mean64 (vs : list Z) : Q :=
  Binary64.round (Binary64.round (inject_Z (sum vs))
                  / Binary64.round (inject_Z (Z.of_nat (List.length vs))))%Q.


(** The body {averageRating, ratingCount} of a successful answer. *)
Definition aggregate (averageRating : string) (ratingCount : Z) : Server.Response :=
  Server.res_json (Some (JS.JObj
    [("averageRating"%string, JS.JStr averageRating);
     ("ratingCount"%string, JS.JNum (inject_Z ratingCount))])).

(** A field of the JSON object that a response carries. *)
Definition field (name : string) (r : Server.Response) : JS.value :=
  match Server.body r with
  | Server.Json (Some v) => JS.member v name
  | _ => None
  end.

(** The number that a string of decimal digits writes. *)
Definition reads (s : string) : option Z :=
  option_map (fun d => Z.of_N (N.of_uint d)) (NilEmpty.uint_of_string s).

(** A submission (id, rating, date) with all three fields. *)
Definition submission (cocktailId : string) (v d : Z) : Server.RatingBody :=
  {| Server.id := Some cocktailId; Server.rating := Some v; Server.date := Some d |}.


(** The row's date falls in month [month] (1 = January) of [year]. *)
Definition in_period (year month : Z) (r : SQLite.Rating) : bool :=
  match SQLite.rated_date r with
  | Some d => (Calendar.YearFromDay d =? year) && (Calendar.MonthFromDay d + 1 =? month)
  | None => false
  end.


(** Ratings that the aggregate adds up without rounding: their absolute
    values sum to less than 2^53.  Their mean is below 10^21, where [toFixed]
    writes digits. *)
Definition exact (vs : list Z) : Prop := sum (map Z.abs vs) < 2 ^ 53.


(** "The returned JSON contains the aggregate rating fields." *)
Definition has_aggregate (r : Server.Response) : Prop :=
  field "averageRating" r <> None /\ field "ratingCount" r <> None.

(** What the recipe API hands over for an id: the parsed body, or the
    failure of the call or of the parsing. *)
Definition upstream_data (w : Server.World) (id : string) : JS.promise JS.json :=
  JS.then_ (Server.fetch w (Server.apiURL id))
           (fun response => Server.response_json response).

(** The recipe routes, and their answers. *)
Inductive route :=
| ByMood (mood : option string)
| TopOfMonth
| TopOfWeek.

Definition answer `{JS.Runtime} (w : Server.World) (db : SQLite.Db) (rt : route)
  : Server.Response :=
  match rt with
  | ByMood mood => Server.cocktail_by_mood w db mood
  | TopOfMonth => Server.top_rated_cocktail w db
  | TopOfWeek => Server.top_rated_cocktail_week w db
  end.

(** "The cocktail identifier resolved by a server route": the ID of the
    Moods entry that the draw picks, or the cocktail_id of the row of the
    top-rated statement, as a text. *)
Definition resolved `{JS.Runtime} (w : Server.World) (db : SQLite.Db) (rt : route)
  : option string :=
  match rt with
  | ByMood mood =>
      option_map SQLite.ID (SQLite.select_mood mood (Server.random w) db)
  | TopOfMonth =>
      option_map (fun row => Server.template (SQLite.top_cocktail_id row))
        (SQLite.select_top_month
           (JS.padStart (JS.toString (Server.currentMonth w)) 2)
           (JS.toString (Server.currentYear w)) db)
  | TopOfWeek =>
      option_map (fun row => Server.template (SQLite.top_cocktail_id row))
        (SQLite.select_top_week
           (JS.toISODate (Server.firstDayOfWeek (Server.now w)))
           (JS.toISODate (Server.lastDayOfWeek (Server.now w))) db)
  end.

(** A body of the shape the API documents: an object whose [drinks] is null
    or an array. *)
Definition drinks_shaped (data : JS.json) : Prop :=
  JS.member data "drinks" = Some JS.JNull
  \/ exists items, JS.member data "drinks" = Some (JS.JArr items).

(** "The upstream reports zero matching drinks (empty or null drinks
    array)." *)
Definition zero_drinks (data : JS.json) : Prop :=
  JS.member data "drinks" = Some JS.JNull
  \/ JS.member data "drinks" = Some (JS.JArr []).

(** The outcomes of the lookup as the specification classifies them. *)
Definition classified `{JS.Runtime} (w : Server.World) (id : string) : Prop :=
  let r := Server.hydrate w id in
  (Server.status r = 500 <->
     (exists e, upstream_data w id = JS.Rejected e)
     \/ (exists data, upstream_data w id = JS.Fulfilled data /\ ~ drinks_shaped data))
  /\ (Server.status r = 404 <->
     exists data, upstream_data w id = JS.Fulfilled data /\ zero_drinks data)
  /\ (forall data x rest,
        upstream_data w id = JS.Fulfilled data ->
        JS.member data "drinks" = Some (JS.JArr (x :: rest)) ->
        r = Server.res_json (Some x)).

End Spec.

(** ** Concrete stores and worlds *)
Module Examples.

Local Open Scope string_scope.

(** 2024-03-01 is day 19783; 2024-03-03 is a Sunday. *)
Definition march (n : Z) : Z := 19782 + n.

Definition row (k : string) (v d : Z) : SQLite.Rating :=
  {| SQLite.cocktail_id := Some k;
     SQLite.rating := Some v;
     SQLite.rated_date := Some d |}.

Definition store (rows : list SQLite.Rating) : SQLite.Db :=
  {| SQLite.CocktailRatings := rows;
     SQLite.Moods := [ {| SQLite.ID := "11007"; SQLite.Mood := "happy" |};
                       {| SQLite.ID := "17222"; SQLite.Mood := "Happy" |} ];
     SQLite.fault := None |}.

(** The ratings of the example of the specification. *)
Definition march_ratings : list SQLite.Rating :=
  [row "A" 5 (march 1); row "A" 3 (march 2); row "B" 4 (march 1)].

Definition empty_store : SQLite.Db := store [].
Definition march_store : SQLite.Db := store march_ratings.

(** The same rows for A, other rows for the other cocktails. *)
Definition other_store : SQLite.Db :=
  store [row "C" 1 (march 9); row "A" 3 (march 2); row "B" 2 (march 4);
         row "A" 5 (march 1)].

Definition zero_store : SQLite.Db := store [row "A" 0 (march 1); row "A" 0 (march 2)].

(** A run-time system in the zone UTC+1 that reads no text as a number. *)
Definition lisbon_summer : JS.Runtime :=
  {| JS.ToNumber_text := fun _ => None; JS.LocalTZA := 3600000 |}.

Definition margarita : JS.json :=
  JS.JObj [("idDrink", JS.JStr "11007"); ("strDrink", JS.JStr "Margarita")].

(** A world in which the recipe API answers every lookup with [data]. *)
Definition answering (data : JS.json) : Server.World :=
  {| Server.fetch := fun url =>
       JS.Fulfilled {| Server.response_json := JS.Fulfilled data |};
     Server.random := 7;
     Server.now := march 3 * JS.msPerDay + 1000 |}.

Definition margarita_world : Server.World :=
  answering (JS.JObj [("drinks", JS.JArr [margarita])]).

(** The answers of the routes in that world, in that zone. *)
Definition lookup (data : JS.json) : Server.Response :=
  @Server.hydrate lisbon_summer (answering data) "11007".

Definition by_mood (mood : string) : Server.Response :=
  @Server.cocktail_by_mood lisbon_summer margarita_world march_store (Some mood).

Definition top_of_month : Server.Response :=
  @Server.top_rated_cocktail lisbon_summer margarita_world march_store.

End Examples.

(** ** The period of the weekly statement *)
Module Week.

(** The row carries a date from day [lo] to day [hi]. *)
Definition dated_within (lo hi : Z) (r : SQLite.Rating) : bool :=
  match SQLite.rated_date r with
  | Some d => (lo <=? d) && (d <=? hi)
  | None => false
  end.

(** The rows of cocktail [k] dated from [lo] to [hi]. *)
Definition rows_within (lo hi : Z) (k : option string)
  (rows : list SQLite.Rating) : list SQLite.Rating :=
  filter (fun r => SQLite.same_key (SQLite.cocktail_id r) k && dated_within lo hi r)
         rows.

End Week.

(** The world [w] with another draw of RANDOM(). *)
Definition with_random (w : Server.World) (random : nat) : Server.World :=
  {| Server.fetch := Server.fetch w;
     Server.random := random;
     Server.now := Server.now w |}.

(** ** The pages: [public/home.js], [public/cocktail-info.js] and the script
    of the start page *)
Module Client.

(** What the pages take from the browser without fixing it: the text that
    [String(v)] writes for a number that is not an integer below 10^21, for
    an array and for an object, and [JSON.parse] on a text that begins like a
    JSON value ([None] is a SyntaxError). *)
Class Browser := {
  ToString_other : JS.json -> string;
  JSON_parse : string -> option JS.json
}.

(** The text that a template literal writes for a value. *)
Definition template `{Browser} (v : JS.value) : string :=
  match v with
  | None => "undefined"
  | Some JS.JNull => "null"
  | Some (JS.JBool true) => "true"
  | Some (JS.JBool false) => "false"
  | Some (JS.JStr s) => s
  | Some (JS.JNum q) =>
      if (Z.pos (Qden (Qred q)) =? 1) && (Z.abs (Qnum (Qred q)) <? 10 ^ 21)
      then JS.toString (Qnum (Qred q))
      else ToString_other (JS.JNum q)
  | Some other => ToString_other other
  end.

(** [a !== 'text'] *)
Definition differs (v : JS.value) (text : string) : bool :=
  match v with
  | Some (JS.JStr s) => negb (String.eqb s text)
  | _ => true
  end.

(** A character with which a JSON text can begin: white space, or the first
    character of a value. *)
Definition begins_json (c : ascii) : bool :=
  existsb (Ascii.eqb c)
    (list_ascii_of_string
       (String "009" (String "010" (String "013" (String "034" " {[-0123456789tfn"))))).

(** [response.json()] on an answer of the server: the value sent by
    [res.json], and the text sent by [res.send] parsed as JSON. *)
Definition response_json `{Browser} (r : Server.Response) : JS.promise JS.json :=
  match Server.body r with
  | Server.Json (Some v) => JS.Fulfilled v
  | Server.Json None => JS.Rejected "SyntaxError"
  | Server.Text EmptyString => JS.Rejected "SyntaxError"
  | Server.Text (String c rest) =>
      if begins_json c
      then match JSON_parse (String c rest) with
           | Some v => JS.Fulfilled v
           | None => JS.Rejected "SyntaxError"
           end
      else JS.Rejected "SyntaxError"
  end.

(** *** [home.js] and the script of the start page *)

(** The object that stands for an average that could not be fetched. *)
Definition fallback : JS.json :=
  JS.JObj [("averageRating"%string, JS.JStr "Not rated");
           ("ratingCount"%string, JS.JNum 0)].

(** [fetchAverageRating(cocktailId)], from the outcome of the request
    ([Rejected] when it does not reach the server) to the object it resolves
    to. *)
Definition fetchAverageRating `{Browser} (reply : JS.promise Server.Response)
  : JS.json :=
  JS.catch_
    (JS.then_ (JS.then_ reply response_json)
       (fun avgData =>
          if negb (JS.truthy (Some avgData))
             || JS.truthy (JS.member avgData "error")
          then JS.Rejected "Failed to fetch average rating"
          else JS.Fulfilled avgData))
    (fun error => fallback).

(** The line about the rating in [displayCocktail] and
    [displaySuggestion]. *)
Definition ratingText `{Browser} (avgData : JS.json) : string :=
  if differs (JS.member avgData "averageRating") "Not rated"
  then ("Average Rating: " ++ template (JS.member avgData "averageRating")
        ++ " (" ++ template (JS.member avgData "ratingCount") ++ " ratings)")%string
  else "Not yet rated"%string.

(** The cocktail of the day of [home.js]: what the page does on load.
    [saved] is the value whose JSON text the session storage holds under
    'cocktailOfTheDay'; [reply] is the outcome of GET /top-rated-cocktail,
    which is asked only without a saved value. *)
Inductive shown :=
| Displays (drink : JS.json)   (* displayCocktail(drink) runs *)
| FailedToLoad                 (* the message of the catch *)
| NothingShown.                (* an exception that nothing catches *)

Definition load_cocktail_of_the_day `{Browser}
  (saved : option JS.json) (reply : JS.promise Server.Response)
  : option JS.json * shown :=
  match saved with
  | Some drink =>
      (saved, match drink with JS.JNull => NothingShown | _ => Displays drink end)
  | None =>
      match JS.then_ reply response_json with
      | JS.Fulfilled drink =>
          (Some drink,
           match drink with JS.JNull => FailedToLoad | _ => Displays drink end)
      | JS.Rejected _ => (None, FailedToLoad)
      end
  end.

(** *** [cocktail-info.js] *)

(** [fetchAverageRating(cocktailId)] of the page of one cocktail, which has
    the element 'cocktailInfo': the text of the paragraph it inserts, if it
    inserts one. *)
Definition info_rating `{Browser} (reply : JS.promise Server.Response)
  : option string :=
  JS.catch_
    (JS.then_ (JS.then_ reply response_json)
       (fun avgData =>
          match avgData with
          | JS.JNull => JS.Rejected "TypeError"
          | _ =>
              JS.Fulfilled
                (Some
                   (if differs (JS.member avgData "averageRating") "Not rated"
                    then ("Rating: " ++ template (JS.member avgData "averageRating")
                          ++ "/5 (Rated " ++ template (JS.member avgData "ratingCount")
                          ++ " times)")%string
                    else "Not rated"%string))
          end))
    (fun error => None).

(** [ratedCocktails.includes(cocktailId)] *)
Definition includes (ratedCocktails : list (option string))
  (cocktailId : option string) : bool :=
  existsb (fun k => SQLite.same_key k cocktailId) ratedCocktails.

(** A click on the button of [submitCocktailRating]: [checked] is the value of
    the checked star, by the number that the database reads from it, if a
    star is checked; [today] is the UTC day of the clock of the browser;
    [sent] tells whether the request reaches the server, and [answered]
    whether the answer of the server reaches the page. *)
Record Click := {
  cocktailId : option string;
  checked : option Z;
  today : Z;
  sent : bool;
  answered : bool
}.

(** [submitCocktailRating(cocktailId, ratedCocktails)]: the list kept in the
    session storage and the database, after the click.  The server stores
    the row before it answers; the page extends the list in [.then], when
    the answer has come, and its [.catch] undoes nothing. *)
Definition submitCocktailRating `{Browser} (c : Click)
  (ratedCocktails : list (option string)) (db : SQLite.Db)
  : list (option string) * SQLite.Db :=
  match checked c with
  | None => (ratedCocktails, db)
  | Some rating =>
      if includes ratedCocktails (cocktailId c) then (ratedCocktails, db)
      else if negb (sent c) then (ratedCocktails, db)
      else
        let '(db', response) :=
          Server.submit_rating db
            {| Server.id := cocktailId c;
               Server.rating := Some rating;
               Server.date := Some (today c) |} in
        let accepted :=
          JS.catch_
            (JS.then_
               (JS.then_
                  (if answered c then JS.Fulfilled response
                   else JS.Rejected "TypeError: Failed to fetch")
                  response_json)
               (fun data =>
                  match data with
                  | JS.JNull => JS.Rejected "TypeError"
                  | _ => JS.Fulfilled (JS.truthy (JS.member data "message"))
                  end))
            (fun error => false) in
        (if accepted then ratedCocktails ++ [cocktailId c] else ratedCocktails, db')
  end.

(** The clicks of one session, one after the other: each click is handled
    to its end, the answer of the server included, before the next one (the
    page reloads after a rating that the server accepted). *)
Fixpoint clicks `{Browser} (cs : list Click)
  (ratedCocktails : list (option string)) (db : SQLite.Db)
  : list (option string) * SQLite.Db :=
  match cs with
  | [] => (ratedCocktails, db)
  | c :: rest =>
      let '(rated, db') := submitCocktailRating c ratedCocktails db in
      clicks rest rated db'
  end.

(** The clicks for cocktail [k] whose request reached the server and whose
    answer was lost. *)
Definition lost (k : option string) (cs : list Click) : list Click :=
  filter (fun c => SQLite.same_key (cocktailId c) k
                   && sent c && negb (answered c)) cs.

(** A letter or a digit. *)
Definition alphanumeric (c : ascii) : bool :=
  let n := nat_of_ascii c in
  ((48 <=? n) && (n <=? 57) || (65 <=? n) && (n <=? 90)
   || (97 <=? n) && (n <=? 122))%nat.

(** An id that the URL parser of the browser and the router of Express hand
    over to the handler as it is: letters and digits, at least one, as the
    ids of the API are. *)
Definition plain_segment (id : string) : bool :=
  negb (String.eqb id "") && forallb alphanumeric (list_ascii_of_string id).

(** GET /average-rating/${cocktailId} as the pages send it, when the request
    and its answer get through: for an id of letters and digits the handler
    answers with that id as its parameter.  Other texts go first through the
    URL parser and the router (an empty id or one with a slash meets no
    route, a question mark or a hash ends the path, a percent sign is
    decoded), which are not modelled: [None]. *)
Definition average_request (db : SQLite.Db) (id : string)
  : option Server.Response :=
  if plain_segment id then Some (Server.average_rating db id) else None.

(** The line about the rating of [home.js] and of the start page, and the
    paragraph of the page of one cocktail, for such a request. *)
Definition home_rating_line `{Browser} (db : SQLite.Db) (id : string)
  : option string :=
  option_map (fun r => ratingText (fetchAverageRating (JS.Fulfilled r)))
             (average_request db id).

Definition info_rating_line `{Browser} (db : SQLite.Db) (id : string)
  : option (option string) :=
  option_map (fun r => info_rating (JS.Fulfilled r)) (average_request db id).

End Client.

(** ** More examples *)
Module Scenarios.

Local Open Scope string_scope.

(** Two cocktails for one mood. *)
Definition party_store : SQLite.Db :=
  {| SQLite.CocktailRatings := [];
     SQLite.Moods := [ {| SQLite.ID := "11007"; SQLite.Mood := "happy" |};
                       {| SQLite.ID := "17222"; SQLite.Mood := "happy" |};
                       {| SQLite.ID := "11000"; SQLite.Mood := "sad" |} ];
     SQLite.fault := None |}.

(** A browser for the examples, which call neither of its functions. *)
Definition browser : Client.Browser :=
  {| Client.ToString_other := fun _ => "[object Object]";
     Client.JSON_parse := fun _ => None |}.

(** A rating of March 2024 that was submitted without an id. *)
Definition anonymous_store : SQLite.Db :=
  Examples.store [ {| SQLite.cocktail_id := None;
                      SQLite.rating := Some 4;
                      SQLite.rated_date := Some (Examples.march 2) |};
                   Examples.row "A" 5 19700 ].

End Scenarios.

(** ** Tactics *)

(** Case analysis on the condition of an [if] of the goal. *)
Ltac break_if :=
  match goal with
  | |- context [if ?c then _ else _] => destruct c
  end.

(** Case analysis on a property access of the goal. *)
Ltac break_member d E :=
  match goal with
  | |- context [JS.member ?x ?n] => destruct (JS.member x n) as [d|] eqn:E
  end.

(** ** Rounding to binary64 *)
Section Binary64Facts.
Import Binary64.


Lemma log2_ratio_lower (n d : Z) :
  0 < n -> 0 < d ->
  d * 2 ^ Z.max 0 (log2_ratio n d) <= n * 2 ^ Z.max 0 (- log2_ratio n d).
Proof.
  intros Hn Hd. unfold log2_ratio.
  set (k := Z.log2 n - Z.log2 d).
  destruct (d * 2 ^ Z.max 0 k <=? n * 2 ^ Z.max 0 (- k)) eqn:E.
  - apply Z.leb_le. exact E.
  - clear E.
    destruct (Z.log2_spec n Hn) as [Hn1 _].
    destruct (Z.log2_spec d Hd) as [_ Hd2].
    pose proof (Z.log2_nonneg n) as Hln. pose proof (Z.log2_nonneg d) as Hld.
    destruct (Z.le_gt_cases 0 (k - 1)) as [Hk|Hk].
    + rewrite (Z.max_r 0 (k - 1)), (Z.max_l 0 (- (k - 1))) by lia.
      rewrite Z.pow_0_r, Z.mul_1_r.
      apply Z.le_trans with (2 ^ Z.log2 n); [|assumption].
      replace (Z.log2 n) with (Z.succ (Z.log2 d) + (k - 1)) by (unfold k; lia).
      rewrite Z.pow_add_r by lia.
      apply Z.mul_le_mono_nonneg_r; [apply Z.pow_nonneg; lia|lia].
    + rewrite (Z.max_l 0 (k - 1)), (Z.max_r 0 (- (k - 1))) by lia.
      rewrite Z.pow_0_r, Z.mul_1_r.
      apply Z.le_trans with (2 ^ Z.succ (Z.log2 d)); [lia|].
      replace (Z.succ (Z.log2 d)) with (Z.log2 n + (- (k - 1))) by (unfold k; lia).
      rewrite Z.pow_add_r by lia.
      apply Z.mul_le_mono_nonneg_r; [apply Z.pow_nonneg; lia|lia].
Qed.

Lemma scaled_lower (n d : Z) :
  0 < n -> 0 < d ->
  let e := log2_ratio n d - 52 in
  d * 2 ^ Z.max 0 e * 2 ^ 52 <= n * 2 ^ Z.max 0 (- e).
Proof.
  intros Hn Hd e. subst e.
  pose proof (log2_ratio_lower n d Hn Hd) as Hl.
  set (E := log2_ratio n d) in *.
  destruct (Z.le_gt_cases 52 E) as [H52|H52].
  - rewrite (Z.max_r 0 (E - 52)), (Z.max_l 0 (- (E - 52))) by lia.
    rewrite (Z.max_r 0 E), (Z.max_l 0 (- E)) in Hl by lia.
    rewrite <- Z.mul_assoc, <- Z.pow_add_r by lia.
    replace (E - 52 + 52) with E by lia. exact Hl.
  - rewrite (Z.max_l 0 (E - 52)), (Z.max_r 0 (- (E - 52))) by lia.
    rewrite Z.pow_0_r, Z.mul_1_r.
    destruct (Z.le_gt_cases 0 E) as [H0|H0].
    + rewrite (Z.max_r 0 E), (Z.max_l 0 (- E)), Z.pow_0_r, Z.mul_1_r in Hl by lia.
      replace 52 with (E + (52 - E)) at 1 by lia.
      rewrite Z.pow_add_r, Z.mul_assoc by lia.
      replace (- (E - 52)) with (52 - E) by lia.
      apply Z.mul_le_mono_nonneg_r; [apply Z.pow_nonneg; lia|exact Hl].
    + rewrite (Z.max_l 0 E), (Z.max_r 0 (- E)), Z.pow_0_r, Z.mul_1_r in Hl by lia.
      replace (- (E - 52)) with (- E + 52) by lia.
      rewrite Z.pow_add_r, Z.mul_assoc by lia.
      apply Z.mul_le_mono_nonneg_r; [apply Z.pow_nonneg; lia|exact Hl].
Qed.

Lemma round_half_even_bounds (num den : Z) :
  0 < den ->
  num / den <= round_half_even num den <= num / den + 1.
Proof.
  intros Hd. unfold round_half_even.
  destruct (2 * (num mod den) <? den); [lia|].
  destruct (den <? 2 * (num mod den)); [lia|].
  destruct (Z.even (num / den)); lia.
Qed.

(** The significand of a number that is not zero is at least 2^52. *)
Lemma significand_lower (n d : Z) :
  0 < n -> 0 < d ->
  let e := log2_ratio n d - 52 in
  2 ^ 52 <= round_half_even (n * 2 ^ Z.max 0 (- e)) (d * 2 ^ Z.max 0 e).
Proof.
  intros Hn Hd e.
  pose proof (scaled_lower n d Hn Hd) as Hs. fold e in Hs. cbv zeta in Hs.
  assert (Hden : 0 < d * 2 ^ Z.max 0 e)
    by (apply Z.mul_pos_pos; [assumption|apply Z.pow_pos_nonneg; lia]).
  pose proof (round_half_even_bounds (n * 2 ^ Z.max 0 (- e)) (d * 2 ^ Z.max 0 e) Hden)
    as [Hlo _].
  apply Z.le_trans with (n * 2 ^ Z.max 0 (- e) / (d * 2 ^ Z.max 0 e)); [|exact Hlo].
  apply Z.div_le_lower_bound; [assumption|].
  exact Hs.
Qed.

Lemma log2_ratio_upper (n d : Z) :
  0 < n -> 0 < d ->
  n * 2 ^ Z.max 0 (- log2_ratio n d) < d * 2 ^ Z.max 0 (log2_ratio n d) * 2.
Proof.
  intros Hn Hd. unfold log2_ratio.
  set (k := Z.log2 n - Z.log2 d).
  destruct (Z.log2_spec n Hn) as [_ Hn2].
  destruct (Z.log2_spec d Hd) as [Hd1 _].
  pose proof (Z.log2_nonneg n) as Hln. pose proof (Z.log2_nonneg d) as Hld.
  destruct (d * 2 ^ Z.max 0 k <=? n * 2 ^ Z.max 0 (- k)) eqn:E.
  - clear E. destruct (Z.le_gt_cases 0 k) as [Hk|Hk].
    + rewrite (Z.max_r 0 k), (Z.max_l 0 (- k)), Z.pow_0_r, Z.mul_1_r by lia.
      apply Z.lt_le_trans with (2 ^ Z.succ (Z.log2 n)); [assumption|].
      replace (Z.succ (Z.log2 n)) with (Z.log2 d + k + 1) by (unfold k; lia).
      rewrite !Z.pow_add_r, Z.pow_1_r by lia.
      apply Z.mul_le_mono_nonneg_r; [lia|].
      apply Z.mul_le_mono_nonneg_r; [apply Z.pow_nonneg; lia|assumption].
    + rewrite (Z.max_l 0 k), (Z.max_r 0 (- k)), Z.pow_0_r, Z.mul_1_r by lia.
      apply Z.lt_le_trans with (2 ^ Z.succ (Z.log2 n) * 2 ^ (- k)).
      * apply Z.mul_lt_mono_pos_r; [apply Z.pow_pos_nonneg; lia|assumption].
      * rewrite <- Z.pow_add_r by lia.
        replace (Z.succ (Z.log2 n) + - k) with (Z.log2 d + 1) by (unfold k; lia).
        rewrite Z.pow_add_r, Z.pow_1_r by lia.
        apply Z.mul_le_mono_nonneg_r; [lia|assumption].
  - apply Z.leb_gt in E. destruct (Z.le_gt_cases 1 k) as [Hk|Hk].
    + rewrite (Z.max_r 0 k), (Z.max_l 0 (- k)), Z.pow_0_r, Z.mul_1_r in E by lia.
      rewrite (Z.max_r 0 (k - 1)), (Z.max_l 0 (- (k - 1))), Z.pow_0_r, Z.mul_1_r by lia.
      replace k with (k - 1 + 1) in E at 1 by lia.
      rewrite Z.pow_add_r, Z.pow_1_r, Z.mul_assoc in E by lia. exact E.
    + rewrite (Z.max_l 0 k), (Z.max_r 0 (- k)), Z.pow_0_r, Z.mul_1_r in E by lia.
      rewrite (Z.max_l 0 (k - 1)), (Z.max_r 0 (- (k - 1))), Z.pow_0_r, Z.mul_1_r by lia.
      replace (- (k - 1)) with (- k + 1) by lia.
      rewrite Z.pow_add_r, Z.pow_1_r, Z.mul_assoc by lia. lia.
Qed.


Lemma scaled_upper (n d : Z) :
  0 < n -> 0 < d ->
  let e := log2_ratio n d - 52 in
  n * 2 ^ Z.max 0 (- e) < d * 2 ^ Z.max 0 e * 2 ^ 53.
Proof.
  intros Hn Hd e. subst e.
  pose proof (log2_ratio_upper n d Hn Hd) as Hu.
  set (E := log2_ratio n d) in *.
  change (2 ^ 53) with (2 ^ 52 * 2). rewrite Z.mul_assoc.
  destruct (Z.le_gt_cases 52 E) as [H52|H52].
  - rewrite (Z.max_r 0 (E - 52)), (Z.max_l 0 (- (E - 52))) by lia.
    rewrite (Z.max_r 0 E), (Z.max_l 0 (- E)) in Hu by lia.
    rewrite <- (Z.mul_assoc d), <- Z.pow_add_r by lia.
    replace (E - 52 + 52) with E by lia. exact Hu.
  - rewrite (Z.max_l 0 (E - 52)), (Z.max_r 0 (- (E - 52))) by lia.
    rewrite Z.pow_0_r, Z.mul_1_r.
    destruct (Z.le_gt_cases 0 E) as [H0|H0].
    + rewrite (Z.max_r 0 E), (Z.max_l 0 (- E)), Z.pow_0_r, Z.mul_1_r in Hu by lia.
      replace 52 with (E + (52 - E)) at 2 by lia.
      rewrite Z.pow_add_r by lia.
      replace (- (E - 52)) with (52 - E) by lia.
      assert (Hp : 0 < 2 ^ (52 - E)) by (apply Z.pow_pos_nonneg; lia).
      nia.
    + rewrite (Z.max_l 0 E), (Z.max_r 0 (- E)), Z.pow_0_r, Z.mul_1_r in Hu by lia.
      replace (- (E - 52)) with (- E + 52) by lia.
      rewrite Z.pow_add_r by lia.
      assert (Hp : 0 < 2 ^ 52) by reflexivity.
      nia.
Qed.

Lemma round_half_even_nearest (num den : Z) :
  0 < den ->
  Z.abs (2 * (round_half_even num den * den - num)) <= den.
Proof.
  intros Hd. unfold round_half_even.
  pose proof (Z.div_mod num den ltac:(lia)) as Hdm.
  pose proof (Z.mod_pos_bound num den Hd) as Hr.
  destruct (2 * (num mod den) <? den) eqn:E1;
    [apply Z.ltb_lt in E1; nia|apply Z.ltb_ge in E1].
  destruct (den <? 2 * (num mod den)) eqn:E2;
    [apply Z.ltb_lt in E2; nia|apply Z.ltb_ge in E2].
  destruct (Z.even (num / den)); nia.
Qed.

(** The significand has 53 bits, and is the integer nearest to the scaled
    number. *)
Lemma significand_spec (n d : Z) :
  0 < n -> 0 < d ->
  let e := log2_ratio n d - 52 in
  let num := n * 2 ^ Z.max 0 (- e) in
  let den := d * 2 ^ Z.max 0 e in
  let m := round_half_even num den in
  2 ^ 52 <= m <= 2 ^ 53
  /\ Z.abs (2 * (m * den - num)) <= den
  /\ Z.abs (m * den - num) * 2 ^ 53 <= num.
Proof.
  intros Hn Hd e num den m.
  pose proof (scaled_lower n d Hn Hd) as Hl.
  pose proof (scaled_upper n d Hn Hd) as Hu.
  fold e in Hl, Hu. cbv zeta in Hl, Hu. fold num den in Hl, Hu.
  assert (Hden : 0 < den)
    by (apply Z.mul_pos_pos; [assumption|apply Z.pow_pos_nonneg; lia]).
  pose proof (round_half_even_bounds num den Hden) as [Hlo Hhi]. fold m in Hlo, Hhi.
  pose proof (round_half_even_nearest num den Hden) as Hnear. fold m in Hnear.
  assert (H52 : 2 ^ 52 <= num / den)
    by (apply Z.div_le_lower_bound; [assumption|lia]).
  assert (H53 : num / den < 2 ^ 53)
    by (apply Z.div_lt_upper_bound; [assumption|lia]).
  split; [lia|]. split; [exact Hnear|].
  change (2 ^ 53) with (2 * 2 ^ 52). lia.
Qed.

Lemma Qnum_Qred_zero (q : Q) : Qnum (Qred q) = 0 <-> (q == 0)%Q.
Proof.
  split.
  - intros Hn. rewrite <- (Qred_correct q).
    destruct (Qred q) as [n d]. simpl in Hn. subst n. reflexivity.
  - intros Hq. rewrite (Qred_complete _ _ Hq). reflexivity.
Qed.

(** Rounding yields zero for zero only (no underflow in the range of the
    model). *)
Lemma round_zero_iff (q : Q) : (round q == 0)%Q <-> (q == 0)%Q.
Proof.
  unfold round.
  destruct (Z.abs (Qnum (Qred q)) =? 0) eqn:E.
  - apply Z.eqb_eq in E. split; [intros _|reflexivity].
    apply Qnum_Qred_zero. lia.
  - apply Z.eqb_neq in E.
    assert (Hq : ~ (q == 0)%Q) by (rewrite <- Qnum_Qred_zero; lia).
    split; [|intros H; contradiction].
    intros Hr. exfalso.
    set (n := Z.abs (Qnum (Qred q))) in *.
    set (d := Z.pos (Qden (Qred q))) in *.
    assert (Hn : 0 < n) by (subst n; lia).
    assert (Hd : 0 < d) by (subst d; lia).
    pose proof (significand_lower n d Hn Hd) as Hm. cbv zeta in Hm.
    set (e := log2_ratio n d - 52) in *.
    set (m := round_half_even (n * 2 ^ Z.max 0 (- e)) (d * 2 ^ Z.max 0 e)) in *.
    assert (Ha : 0 < 2 ^ Z.max 0 e) by (apply Z.pow_pos_nonneg; lia).
    assert (Hb : 0 < 2 ^ Z.max 0 (- e)) by (apply Z.pow_pos_nonneg; lia).
    assert (H52 : 0 < 2 ^ 52) by reflexivity.
    destruct (2 ^ Z.max 0 (- e)) as [|pb|pb] eqn:Eb; try lia.
    unfold Qeq, Qdiv, Qmult, Qinv, inject_Z in Hr. cbn [Qnum Qden] in Hr.
    rewrite Z.mul_0_l, !Z.mul_1_r in Hr.
    apply Z.mul_eq_0 in Hr. destruct Hr as [Hr|Hr]; [|lia].
    apply Z.mul_eq_0 in Hr. destruct Hr as [Hr|Hr]; [|lia].
    apply Z.sgn_null_iff in Hr. subst n. lia.
Qed.

Lemma round_nonneg (q : Q) : (0 <= q)%Q -> (0 <= round q)%Q.
Proof.
  intros Hq. unfold round.
  destruct (Z.abs (Qnum (Qred q)) =? 0) eqn:E; [apply Qle_refl|].
  apply Z.eqb_neq in E.
  assert (Hnum : 0 <= Qnum (Qred q)).
  { apply Qred_le in Hq. unfold Qle in Hq. simpl in Hq. lia. }
  set (n := Z.abs (Qnum (Qred q))) in *.
  set (d := Z.pos (Qden (Qred q))) in *.
  assert (Hn : 0 < n) by (subst n; lia).
  assert (Hd : 0 < d) by (subst d; lia).
  pose proof (significand_lower n d Hn Hd) as Hm. cbv zeta in Hm.
  set (e := log2_ratio n d - 52) in *.
  set (m := round_half_even (n * 2 ^ Z.max 0 (- e)) (d * 2 ^ Z.max 0 e)) in *.
  assert (Ha : 0 < 2 ^ Z.max 0 e) by (apply Z.pow_pos_nonneg; lia).
  assert (Hb : 0 < 2 ^ Z.max 0 (- e)) by (apply Z.pow_pos_nonneg; lia).
  assert (H52 : 0 < 2 ^ 52) by reflexivity.
  assert (Hsg : 0 <= Z.sgn (Qnum (Qred q))) by (apply Z.sgn_nonneg; exact Hnum).
  unfold Qdiv. apply Qmult_le_0_compat.
  - change 0%Q with (inject_Z 0). rewrite <- Zle_Qle.
    apply Z.mul_nonneg_nonneg; [apply Z.mul_nonneg_nonneg|]; lia.
  - apply Qinv_le_0_compat. change 0%Q with (inject_Z 0). rewrite <- Zle_Qle. lia.
Qed.


(** Rounding moves a number by less than its double and its half. *)
Lemma round_relative (q : Q) :
  (0 <= q)%Q -> (round q <= 2 * q)%Q /\ (q <= 2 * round q)%Q.
Proof.
  intros Hq. unfold round.
  destruct (Z.abs (Qnum (Qred q)) =? 0) eqn:E.
  - apply Z.eqb_eq in E.
    assert (Hz : (q == 0)%Q) by (apply Qnum_Qred_zero; lia).
    rewrite Hz. split; discriminate.
  - apply Z.eqb_neq in E.
    assert (Hnum : 0 <= Qnum (Qred q)).
    { apply Qred_le in Hq. unfold Qle in Hq. simpl in Hq. lia. }
    pose proof (Qred_correct q) as Hc.
    set (r := Qred q) in *. clearbody r.
    rewrite <- Hc. clear Hc Hq q.
    destruct r as [N d]. cbn [Qnum Qden] in *.
    assert (Hn : 0 < Z.abs N) by lia.
    assert (Hd : 0 < Z.pos d) by lia.
    destruct (significand_spec (Z.abs N) (Z.pos d) Hn Hd) as [Hm [_ Herr]].
    set (e := log2_ratio (Z.abs N) (Z.pos d) - 52) in *.
    set (m := round_half_even (Z.abs N * 2 ^ Z.max 0 (- e)) (Z.pos d * 2 ^ Z.max 0 e)) in *.
    assert (Ha : 0 < 2 ^ Z.max 0 e) by (apply Z.pow_pos_nonneg; lia).
    assert (Hb : 0 < 2 ^ Z.max 0 (- e)) by (apply Z.pow_pos_nonneg; lia).
    assert (H53 : 2 ^ 53 = 9007199254740992) by reflexivity.
    rewrite H53 in Herr.
    rewrite Z.abs_eq in * by lia.
    assert (Hs : Z.sgn N = 1) by (apply Z.sgn_pos; lia).
    rewrite Hs.
    set (A := 2 ^ Z.max 0 e) in *. set (B := 2 ^ Z.max 0 (- e)) in *.
    destruct B as [|pb|pb] eqn:Eb; try lia.
    unfold Qle, Qdiv, Qmult, Qinv, inject_Z. cbn [Qnum Qden].
    rewrite !Z.mul_1_r, !Z.mul_1_l. rewrite ?Pos2Z.inj_mul.
    split; nia.
Qed.

Lemma round_opp (q : Q) : (round (- q) == - round q)%Q.
Proof.
  unfold round. rewrite Qred_opp.
  destruct (Qred q) as [N d]. cbn [Qopp Qnum Qden].
  rewrite Z.abs_opp, Z.sgn_opp.
  destruct (Z.abs N =? 0); [reflexivity|].
  set (e := log2_ratio (Z.abs N) (Z.pos d) - 52).
  set (m := round_half_even (Z.abs N * 2 ^ Z.max 0 (- e)) (Z.pos d * 2 ^ Z.max 0 e)).
  replace (- Z.sgn N * m * 2 ^ Z.max 0 e)
    with (- (Z.sgn N * m * 2 ^ Z.max 0 e)) by ring.
  rewrite inject_Z_opp. unfold Qdiv. ring.
Qed.

Lemma round_abs_relative (q : Q) : (Qabs (round q) <= 2 * Qabs q)%Q.
Proof.
  destruct (Qlt_le_dec q 0) as [Hneg|Hpos].
  - assert (Hq : (0 <= - q)%Q).
    { apply Qlt_le_weak in Hneg. apply Qopp_le_compat in Hneg. exact Hneg. }
    destruct (round_relative (- q) Hq) as [Hup _].
    pose proof (round_nonneg (- q) Hq) as Hn.
    rewrite round_opp in Hup, Hn.
    rewrite <- (Qabs_opp (round q)), <- (Qabs_opp q).
    rewrite (Qabs_pos _ Hn), (Qabs_pos _ Hq). exact Hup.
  - destruct (round_relative q Hpos) as [Hup _].
    rewrite (Qabs_pos _ (round_nonneg q Hpos)), (Qabs_pos _ Hpos). exact Hup.
Qed.

End Binary64Facts.

(** ** Decimal numerals and strings *)
Section Numerals.

Lemma length_append (s1 s2 : string) :
  String.length (s1 ++ s2) = (String.length s1 + String.length s2)%nat.
Proof. induction s1 as [|c s1 IH]; simpl; congruence. Qed.

Lemma length_zeros (n : nat) : String.length (JS.zeros n) = n.
Proof. induction n as [|n IH]; simpl; congruence. Qed.

Lemma length_substring (s : string) (i j : nat) :
  (i + j <= String.length s)%nat -> String.length (substring i j s) = j.
Proof.
  revert i j. induction s as [|c s IH]; intros i j H; simpl in H.
  - assert (i = 0%nat) by lia. assert (j = 0%nat) by lia. subst. reflexivity.
  - destruct i as [|i]; simpl.
    + destruct j as [|j]; simpl; [reflexivity|]. rewrite IH by lia. reflexivity.
    + apply IH. lia.
Qed.

Lemma substring_all (s : string) : substring 0 (String.length s) s = s.
Proof. induction s as [|c s IH]; simpl; congruence. Qed.

Lemma substring_split (s : string) (i : nat) :
  (i <= String.length s)%nat ->
  (substring 0 i s ++ substring i (String.length s - i) s)%string = s.
Proof.
  revert i. induction s as [|c s IH]; intros i H; simpl in H.
  - assert (i = 0%nat) by lia. subst. reflexivity.
  - destruct i as [|i].
    + rewrite Nat.sub_0_r. apply (substring_all (String c s)).
    + cbn [substring append String.length Nat.sub]. f_equal. apply IH. lia.
Qed.

Lemma reads_string_of_uint (d : Decimal.uint) :
  Spec.reads (NilZero.string_of_uint d) = Some (Z.of_N (N.of_uint d)).
Proof.
  unfold Spec.reads.
  destruct d; try reflexivity;
    unfold NilZero.string_of_uint; rewrite NilEmpty.usu; reflexivity.
Qed.

Lemma reads_digits (n : Z) : 0 <= n -> Spec.reads (JS.digits n) = Some n.
Proof.
  intros H. unfold JS.digits.
  rewrite reads_string_of_uint, DecimalN.Unsigned.of_to, Z2N.id by assumption.
  reflexivity.
Qed.

Lemma reads_zeros (j : nat) (s : string) : Spec.reads (JS.zeros j ++ s) = Spec.reads s.
Proof.
  induction j as [|j IH]; [reflexivity|].
  unfold Spec.reads in *. cbn [JS.zeros append NilEmpty.uint_of_string].
  destruct (NilEmpty.uint_of_string (JS.zeros j ++ s)) as [d|];
    destruct (NilEmpty.uint_of_string s) as [d'|]; simpl in *; congruence.
Qed.

Lemma digits_nonempty (n : Z) : (1 <= String.length (JS.digits n))%nat.
Proof.
  unfold JS.digits.
  destruct (N.to_uint (Z.to_N n)); simpl; lia.
Qed.

End Numerals.

(** ** [toFixed] *)
Section ToFixed.


Lemma nearest_scaled_nonneg (x : Q) (f : nat) :
  (0 <= x)%Q -> 0 <= JS.nearest_scaled x f.
Proof.
  intros Hx. unfold JS.nearest_scaled.
  change 0 with (Qfloor 0). apply Qfloor_resp_le.
  assert (H10 : (0 <= inject_Z (10 ^ Z.of_nat f))%Q).
  { change 0%Q with (inject_Z 0). rewrite <- Zle_Qle. apply Z.pow_nonneg. lia. }
  pose proof (Qmult_le_0_compat _ _ Hx H10) as Hm.
  apply (Qle_trans _ (x * inject_Z (10 ^ Z.of_nat f) + 0)).
  - rewrite Qplus_0_r. exact Hm.
  - apply Qplus_le_r. discriminate.
Qed.

Lemma Qabs_nonneg_eq (x : Q) : (0 <= x)%Q -> Qabs x = x.
Proof.
  destruct x as [n d]. unfold Qle. simpl. intros H.
  rewrite Z.abs_eq by lia. reflexivity.
Qed.

Lemma below_exponential (x : Q) :
  (x < inject_Z (10 ^ 21))%Q -> Qle_bool (inject_Z (10 ^ 21)) x = false.
Proof.
  intros Hx. destruct (Qle_bool (inject_Z (10 ^ 21)) x) eqn:E; [|reflexivity].
  apply Qle_bool_iff in E. exfalso. exact (Qlt_not_le _ _ Hx E).
Qed.

Lemma toFixed_2_nonneg (x : Q) :
  (0 <= x)%Q ->
  (x < inject_Z (10 ^ 21))%Q ->
  exists a b : string,
    JS.toFixed x 2 = (a ++ "." ++ b)%string
    /\ String.length b = 2%nat
    /\ Spec.reads (a ++ b) = Some (JS.nearest_scaled x 2).
Proof.
  intros Hx Hbig. unfold JS.toFixed.
  assert (Hneg : (Qnum x <? 0) = false).
  { apply Z.ltb_ge. destruct x as [n d]. unfold Qle in Hx. simpl in *. lia. }
  rewrite Hneg, Qabs_nonneg_eq by assumption.
  rewrite (below_exponential x Hbig).
  pose proof (nearest_scaled_nonneg x 2 Hx) as Hn.
  set (n := JS.nearest_scaled x 2) in *.
  assert (Hm0 : (if n =? 0 then "0"%string else JS.digits n) = JS.digits n).
  { destruct (n =? 0) eqn:E; [|reflexivity].
    apply Z.eqb_eq in E. rewrite E. reflexivity. }
  rewrite Hm0.
  set (m := if (String.length (JS.digits n) <=? 2)%nat
            then (JS.zeros (2 + 1 - String.length (JS.digits n)) ++ JS.digits n)%string
            else JS.digits n).
  assert (Hlen : (3 <= String.length m)%nat).
  { subst m. pose proof (digits_nonempty n).
    destruct (String.length (JS.digits n) <=? 2)%nat eqn:E.
    - apply Nat.leb_le in E. rewrite length_append, length_zeros. lia.
    - apply Nat.leb_gt in E. lia. }
  assert (Hreads : Spec.reads m = Some n).
  { subst m. destruct (String.length (JS.digits n) <=? 2)%nat.
    - rewrite reads_zeros. apply reads_digits. assumption.
    - apply reads_digits. assumption. }
  exists (substring 0 (String.length m - 2) m),
         (substring (String.length m - 2) 2 m).
  split; [reflexivity|]. split.
  - apply length_substring. lia.
  - pose proof (substring_split m (String.length m - 2) ltac:(lia)) as Hs.
    replace (String.length m - (String.length m - 2))%nat with 2%nat in Hs by lia.
    rewrite Hs. exact Hreads.
Qed.

End ToFixed.

(** ** The aggregates AVG and COUNT *)
Section Aggregates.

Import SQLite.

Lemma fold_avg_step (rows : list Rating) (total cnt : Z) :
  fold_left avg_step (map rating rows) (total, cnt) =
  (total + Spec.sum (Spec.values rows),
   cnt + Z.of_nat (List.length (Spec.values rows))).
Proof.
  revert total cnt.
  induction rows as [|r rows IH]; intros total cnt; simpl.
  - f_equal; lia.
  - destruct (rating r) as [v|]; simpl.
    + rewrite IH. unfold Spec.sum. simpl. f_equal; lia.
    + apply IH.
Qed.

(** AVG is NULL when every value is NULL, and the mean of the others
    otherwise. *)
Lemma AVG_values (rows : list Rating) :
  AVG (map rating rows) =
  match Spec.values rows with
  | [] => None
  | _ :: _ => Some (Spec.mean64 (Spec.values rows))
  end.
Proof.
  unfold AVG. rewrite fold_avg_step. simpl.
  destruct (Spec.values rows) as [|v vs] eqn:E.
  - reflexivity.
  - rewrite <- E.
    assert (Hlen : Z.of_nat (List.length (Spec.values rows)) <> 0)
      by (rewrite E; simpl; lia).
    apply Z.eqb_neq in Hlen. rewrite Hlen. reflexivity.
Qed.

Lemma COUNT_all {A : Type} (column : list (option A)) :
  Forall (fun v => v <> None) column ->
  COUNT column = Z.of_nat (List.length column).
Proof.
  induction 1 as [|v column Hv _ IH]; [reflexivity|].
  destruct v as [a|]; [|congruence].
  cbn [COUNT List.length]. rewrite IH. lia.
Qed.

Lemma COUNT_app {A : Type} (c1 c2 : list (option A)) :
  COUNT (c1 ++ c2) = COUNT c1 + COUNT c2.
Proof.
  induction c1 as [|[a|] c1 IH]; cbn [COUNT app]; lia.
Qed.

Lemma COUNT_Permutation {A : Type} (c1 c2 : list (option A)) :
  Permutation c1 c2 -> COUNT c1 = COUNT c2.
Proof.
  induction 1 as [|x l l' _ IH|x y l|l l' l'' _ IH1 _ IH2]; cbn [COUNT].
  - reflexivity.
  - destruct x; lia.
  - destruct x, y; lia.
  - congruence.
Qed.

Lemma values_app (r1 r2 : list Rating) :
  Spec.values (r1 ++ r2) = Spec.values r1 ++ Spec.values r2.
Proof.
  induction r1 as [|r r1 IH]; simpl; [reflexivity|].
  destruct (rating r); simpl; congruence.
Qed.

Lemma values_Permutation (r1 r2 : list Rating) :
  Permutation r1 r2 -> Permutation (Spec.values r1) (Spec.values r2).
Proof.
  induction 1 as [|x l l' _ IH|x y l|l l' l'' _ IH1 _ IH2]; simpl.
  - constructor.
  - destruct (rating x); [constructor|]; assumption.
  - destruct (rating x), (rating y);
      try apply perm_swap; apply Permutation_refl.
  - eapply perm_trans; eassumption.
Qed.

Lemma sum_Permutation (v1 v2 : list Z) :
  Permutation v1 v2 -> Spec.sum v1 = Spec.sum v2.
Proof.
  unfold Spec.sum.
  induction 1 as [|x l l' _ IH|x y l|l l' l'' _ IH1 _ IH2]; simpl; lia.
Qed.

Lemma mean64_Permutation (v1 v2 : list Z) :
  Permutation v1 v2 -> Spec.mean64 v1 = Spec.mean64 v2.
Proof.
  intros H. unfold Spec.mean64.
  rewrite (sum_Permutation _ _ H), (Permutation_length H). reflexivity.
Qed.




(** A mean is zero exactly when the sum is. *)
Lemma mean_zero_iff (vs : list Z) :
  vs <> [] -> (Spec.mean vs == 0 <-> Spec.sum vs = 0).
Proof.
  intros Hne. unfold Spec.mean.
  assert (Hlen : 0 < Z.of_nat (List.length vs))
    by (destruct vs; [congruence|simpl; lia]).
  destruct (Z.of_nat (List.length vs)) as [|p|p] eqn:E; try lia.
  unfold Qeq, Qdiv, Qmult, Qinv, inject_Z. cbn [Qnum Qden].
  rewrite !Z.mul_1_r, Z.mul_0_l. reflexivity.
Qed.

(** The binary64 mean is zero exactly when the sum is. *)
Lemma mean64_zero_iff (vs : list Z) :
  vs <> [] -> (Spec.mean64 vs == 0 <-> Spec.sum vs = 0).
Proof.
  intros Hne. unfold Spec.mean64.
  assert (Hlen : 0 < Z.of_nat (List.length vs))
    by (destruct vs; [congruence|simpl; lia]).
  assert (Hc : ~ Binary64.round (inject_Z (Z.of_nat (List.length vs))) == 0).
  { rewrite round_zero_iff. change 0%Q with (inject_Z 0).
    rewrite inject_Z_injective. lia. }
  rewrite round_zero_iff. split.
  - intros Hq.
    assert (Hs : Binary64.round (inject_Z (Spec.sum vs)) == 0).
    { rewrite <- (Qmult_div_r (Binary64.round (inject_Z (Spec.sum vs)))
                              (Binary64.round (inject_Z (Z.of_nat (List.length vs)))))
        by exact Hc.
      rewrite Hq. apply Qmult_0_r. }
    apply (proj1 (round_zero_iff _)) in Hs.
    change 0%Q with (inject_Z 0) in Hs.
    apply (proj1 (inject_Z_injective _ _)) in Hs. exact Hs.
  - intros Hs. rewrite Hs. reflexivity.
Qed.



Lemma truthy_mean64 (vs : list Z) :
  vs <> [] ->
  JS.truthy (Some (JS.JNum (Spec.mean64 vs))) = negb (Spec.sum vs =? 0).
Proof.
  intros Hne. simpl. f_equal.
  destruct (Qeq_bool (Spec.mean64 vs) 0) eqn:E.
  - apply Qeq_bool_iff, mean64_zero_iff in E; [|assumption].
    symmetry. apply Z.eqb_eq. assumption.
  - symmetry. apply Z.eqb_neq. intros Hs.
    apply (mean64_zero_iff vs Hne) in Hs.
    apply Qeq_bool_iff in Hs. congruence.
Qed.

(** The mean in binary64 is bounded with the ratings. *)
Lemma mean64_bounded (vs : list Z) (B : Z) :
  vs <> [] ->
  Z.abs (Spec.sum vs) <= B * Z.of_nat (List.length vs) ->
  (Qabs (Spec.mean64 vs) <= inject_Z (8 * B))%Q.
Proof.
  intros Hne HB. unfold Spec.mean64.
  set (S := Spec.sum vs) in *. set (N := Z.of_nat (List.length vs)) in *.
  assert (HN : 1 <= N) by (subst N; destruct vs; [congruence|simpl List.length; lia]).
  assert (HB0 : 0 <= B) by nia.
  set (s := Binary64.round (inject_Z S)). set (c := Binary64.round (inject_Z N)).
  pose proof (round_abs_relative (inject_Z S)) as H1. fold s in H1.
  change (Qabs (inject_Z S)) with (inject_Z (Z.abs S)) in H1.
  assert (HNq : (0 <= inject_Z N)%Q) by (rewrite <- (Zle_Qle 0); lia).
  destruct (round_relative (inject_Z N) HNq) as [_ H2]. fold c in H2.
  assert (Hc : (0 < c)%Q).
  { apply (Qlt_le_trans _ (inject_Z N * (1 # 2))).
    - apply (Qmult_lt_0_compat (inject_Z N) (1 # 2)); [|reflexivity].
      rewrite <- (Zlt_Qlt 0). lia.
    - apply (Qmult_le_r _ _ 2); [reflexivity|].
      setoid_replace (inject_Z N * (1 # 2) * 2)%Q with (inject_Z N) by ring.
      rewrite Qmult_comm. exact H2. }
  assert (Hratio : (Qabs (s / c) <= inject_Z (4 * B))%Q).
  { unfold Qdiv. rewrite Qabs_Qmult, Qabs_Qinv.
    rewrite (Qabs_pos c) by (apply Qlt_le_weak; exact Hc).
    apply Qle_shift_div_r; [exact Hc|].
    eapply Qle_trans; [exact H1|].
    apply (Qle_trans _ (2 * inject_Z (B * N))).
    - apply Qmult_le_l; [reflexivity|]. rewrite <- Zle_Qle. exact HB.
    - rewrite !inject_Z_mult.
      setoid_replace (inject_Z 4 * inject_Z B * c)%Q
        with (2 * inject_Z B * (2 * c))%Q by (change (inject_Z 4) with 4%Q; ring).
      rewrite <- Qmult_assoc. apply Qmult_le_l; [reflexivity|].
      rewrite (Qmult_comm (inject_Z B) (inject_Z N)),
        (Qmult_comm (inject_Z B) (2 * c)).
      apply Qmult_le_compat_r; [exact H2|].
      rewrite <- (Zle_Qle 0). exact HB0. }
  eapply Qle_trans; [apply round_abs_relative|].
  replace (8 * B) with (2 * (4 * B)) by ring. rewrite inject_Z_mult.
  apply Qmult_le_l; [reflexivity|exact Hratio].
Qed.

Lemma exact_sum (vs : list Z) : Spec.exact vs -> Z.abs (Spec.sum vs) < 2 ^ 53.
Proof.
  unfold Spec.exact. intros He.
  assert (Hle : Z.abs (Spec.sum vs) <= Spec.sum (map Z.abs vs)).
  { clear He. induction vs as [|v vs IH]; simpl; lia. }
  lia.
Qed.

(** With ratings whose sum is below 2^53 in absolute value, [toFixed] is
    below its exponent form. *)
Lemma mean64_digits (vs : list Z) :
  Z.abs (Spec.sum vs) < 2 ^ 53 ->
  Qle_bool (inject_Z (10 ^ 21)) (Qabs (Spec.mean64 vs)) = false.
Proof.
  intros Hs. destruct vs as [|v vs]; [reflexivity|].
  apply below_exponential.
  eapply Qle_lt_trans; [apply (mean64_bounded (v :: vs) (2 ^ 53)); [discriminate|]|].
  - simpl List.length. nia.
  - reflexivity.
Qed.

End Aggregates.

(** ** GET /average-rating/:cocktailId *)
Section AverageRating.

Import SQLite.

(** The answer of the handler when the statement runs, in the terms of the
    specification. *)
Lemma average_rating_ok (db : Db) (cocktailId : string) :
  fault db = None ->
  Server.average_rating db cocktailId =
  Spec.aggregate
    (match Spec.values (Spec.rows_of cocktailId db) with
     | [] => "Not rated"
     | _ :: _ =>
         if Spec.sum (Spec.values (Spec.rows_of cocktailId db)) =? 0
         then "Not rated"
         else JS.toFixed (Spec.mean64 (Spec.values (Spec.rows_of cocktailId db))) 2
     end)
    (COUNT (map rated_date (Spec.rows_of cocktailId db))).
Proof.
  intros Hf.
  unfold Server.average_rating, get, select_average. rewrite Hf.
  fold (Spec.rows_of cocktailId db).
  cbn [avgRating ratingCount].
  rewrite AVG_values.
  destruct (Spec.values (Spec.rows_of cocktailId db)) as [|v vs] eqn:E.
  - reflexivity.
  - rewrite truthy_mean64 by congruence.
    destruct (Spec.sum (v :: vs) =? 0); reflexivity.
Qed.

End AverageRating.

Section AverageRatingClaims.

Import SQLite.


(** C2. For a cocktail id without any Rating row, the handler answers (status
    200) with exactly "Not rated" and 0. *)
Theorem average_rating_not_rated (db : Db) (cocktailId : string) :
  fault db = None ->
  Spec.rows_of cocktailId db = [] ->
  Server.average_rating db cocktailId = Spec.aggregate "Not rated" 0
  /\ Server.status (Server.average_rating db cocktailId) = 200.
Proof.
  intros Hf Hrows.
  rewrite average_rating_ok by assumption.
  rewrite Hrows. split; reflexivity.
Qed.

(** C10. When the Rating rows of a cocktail id are not empty and their mean
    is exactly 0, the handler answers "Not rated" with the positive number of
    rows as ratingCount. *)
Theorem average_rating_zero_mean (db : Db) (cocktailId : string) :
  fault db = None ->
  Spec.rows_of cocktailId db <> [] ->
  Forall (fun r => rating r <> None /\ rated_date r <> None)
         (Spec.rows_of cocktailId db) ->
  (Spec.mean (Spec.values (Spec.rows_of cocktailId db)) == 0)%Q ->
  Server.average_rating db cocktailId =
  Spec.aggregate "Not rated" (Z.of_nat (List.length (Spec.rows_of cocktailId db)))
  /\ 0 < Z.of_nat (List.length (Spec.rows_of cocktailId db)).
Proof.
  intros Hf Hne Hrows Hmean.
  rewrite average_rating_ok by assumption.
  rewrite COUNT_all.
  2:{ apply Forall_map. eapply Forall_impl; [|exact Hrows].
      intros r [_ Hd]. exact Hd. }
  rewrite length_map.
  split.
  - destruct (Spec.values (Spec.rows_of cocktailId db)) as [|v vs] eqn:E.
    + reflexivity.
    + apply mean_zero_iff in Hmean; [|congruence].
      apply Z.eqb_eq in Hmean. cbv beta iota. rewrite Hmean. reflexivity.
  - destruct (Spec.rows_of cocktailId db); [congruence|simpl; lia].
Qed.

(** C6. Two states of the store whose Rating rows for a cocktail id are the
    same, in whatever order, give the same answer for that id, whatever rows
    they hold for other ids. *)
Theorem average_rating_only_own_rows (db1 db2 : Db) (cocktailId : string) :
  fault db1 = fault db2 ->
  Permutation (Spec.rows_of cocktailId db1) (Spec.rows_of cocktailId db2) ->
  Server.average_rating db1 cocktailId = Server.average_rating db2 cocktailId.
Proof.
  intros Hf Hperm.
  destruct (fault db1) as [e|] eqn:E1.
  - unfold Server.average_rating, get. rewrite E1, <- Hf. reflexivity.
  - rewrite !average_rating_ok by congruence.
    rewrite (COUNT_Permutation _ _ (Permutation_map rated_date Hperm)).
    pose proof (values_Permutation _ _ Hperm) as Hv.
    rewrite <- (mean64_Permutation _ _ Hv), <- (sum_Permutation _ _ Hv).
    destruct (Spec.values (Spec.rows_of cocktailId db1)) as [|v vs] eqn:Ev1;
      destruct (Spec.values (Spec.rows_of cocktailId db2)) as [|v' vs'] eqn:Ev2;
      try reflexivity.
    apply Permutation_sym in Hv. apply Permutation_nil in Hv. discriminate.
Qed.


Lemma average_rating_not_rated_witness :
  Spec.rows_of "Z" Examples.march_store = []
  /\ Server.average_rating Examples.march_store "Z" = Spec.aggregate "Not rated" 0.
Proof.
  split; [reflexivity|].
  exact (proj1 (average_rating_not_rated Examples.march_store "Z" eq_refl eq_refl)).
Defined.

Lemma average_rating_zero_mean_witness :
  Spec.rows_of "A" Examples.zero_store <> []
  /\ Server.average_rating Examples.zero_store "A" = Spec.aggregate "Not rated" 2.
Proof.
  assert (Hne : Spec.rows_of "A" Examples.zero_store <> [])
    by (vm_compute; discriminate).
  split; [exact Hne|].
  refine (proj1 (average_rating_zero_mean Examples.zero_store "A" eq_refl Hne _ _)).
  - repeat (constructor; [split; discriminate|]). constructor.
  - reflexivity.
Defined.

Lemma average_rating_only_own_rows_witness :
  Permutation (Spec.rows_of "A" Examples.march_store)
              (Spec.rows_of "A" Examples.other_store)
  /\ Server.average_rating Examples.march_store "A"
     = Server.average_rating Examples.other_store "A".
Proof.
  assert (Hp : Permutation (Spec.rows_of "A" Examples.march_store)
                           (Spec.rows_of "A" Examples.other_store))
    by apply perm_swap.
  split; [exact Hp|].
  exact (average_rating_only_own_rows
           Examples.march_store Examples.other_store "A" eq_refl Hp).
Defined.

(** COUNT(rated_date) leaves out a row without a date, which AVG(rating)
    takes in. *)
Remark count_skips_null_date :
  Server.average_rating
    (Examples.store [ {| cocktail_id := Some "A"%string;
                         rating := Some 5;
                         rated_date := None |} ]) "A"
  = Spec.aggregate "5.00" 0.
Proof. reflexivity. Qed.

End AverageRatingClaims.

(** ** POST /submit-rating followed by GET /average-rating *)
Section SubmitRating.

Import SQLite.


Lemma rows_of_insert (db : Db) (cocktailId : string) (r : Rating) :
  Spec.rows_of cocktailId (insert_rating r db) =
  Spec.rows_of cocktailId db
  ++ (if sql_eq (cocktail_id r) (Some cocktailId) then [r] else []).
Proof.
  unfold Spec.rows_of, insert_rating. cbn [CocktailRatings].
  rewrite filter_app. reflexivity.
Qed.

Lemma field_ratingCount (s : string) (n : Z) :
  Spec.field "ratingCount" (Spec.aggregate s n) = Some (JS.JNum (inject_Z n)).
Proof. reflexivity. Qed.

Lemma field_averageRating (s : string) (n : Z) :
  Spec.field "averageRating" (Spec.aggregate s n) = Some (JS.JStr s).
Proof. reflexivity. Qed.




End SubmitRating.

(** ** The calendar *)
Section CalendarFacts.
Import Calendar.

Lemma MonthFromDay_range (d : Z) : 0 <= MonthFromDay d <= 11.
Proof.
  unfold MonthFromDay.
  repeat break_if; lia.
Qed.

Lemma MakeDay_DateFromDay (d k : Z) :
  MakeDay (YearFromDay d) (MonthFromDay d) (DateFromDay d + k) = d + k.
Proof.
  pose proof (MonthFromDay_range d) as Hm.
  unfold MakeDay.
  rewrite (Z.div_small (MonthFromDay d) 12), (Z.mod_small (MonthFromDay d) 12) by lia.
  rewrite Z.add_0_r.
  unfold DateFromDay, DayWithinYear, InLeapYear. lia.
Qed.

Lemma DayFromYear_step (y : Z) : DayFromYear (y + 1) = DayFromYear y + DaysInYear y.
Proof.
  unfold DayFromYear, DaysInYear.
  destruct (y mod 4 =? 0) eqn:E4; destruct (y mod 100 =? 0) eqn:E100;
    destruct (y mod 400 =? 0) eqn:E400; cbn [negb];
    rewrite ?Z.eqb_eq, ?Z.eqb_neq in *;
    Z.div_mod_to_equations; lia.
Qed.

Lemma YearFromDay_spec (d : Z) :
  DayFromYear (YearFromDay d) <= d < DayFromYear (YearFromDay d + 1).
Proof.
  unfold YearFromDay.
  destruct (d <? DayFromYear (1970 + 400 * d / 146097)) eqn:E1.
  - apply Z.ltb_lt in E1. replace (1970 + 400 * d / 146097 - 1 + 1) with (1970 + 400 * d / 146097) by lia.
    split; [|assumption]. unfold DayFromYear in *. Z.div_mod_to_equations. lia.
  - apply Z.ltb_ge in E1.
    destruct (DayFromYear (1970 + 400 * d / 146097 + 1) <=? d) eqn:E2.
    + apply Z.leb_le in E2. split; [assumption|].
      unfold DayFromYear in *. Z.div_mod_to_equations. lia.
    + apply Z.leb_gt in E2. lia.
Qed.
(** A day lies within its year. *)
Lemma DayWithinYear_range (d : Z) :
  0 <= DayWithinYear d < DaysInYear (YearFromDay d).
Proof.
  pose proof (YearFromDay_spec d) as Hy.
  rewrite DayFromYear_step in Hy.
  unfold DayWithinYear. lia.
Qed.

End CalendarFacts.

(** ** GET /top-rated-cocktail-week: the period *)
Section WeekPeriod.
Context `{JS.Runtime}.

Lemma Day_shift (t k : Z) : JS.Day (t + k * JS.msPerDay) = JS.Day t + k.
Proof. unfold JS.Day. apply Z.div_add. discriminate. Qed.

Lemma LocalTime_setDate (d k : Z) :
  JS.LocalTime (JS.setDate d (JS.getDate d + k)) = JS.LocalTime d + k * JS.msPerDay.
Proof.
  unfold JS.setDate, JS.getDate, JS.UTC, JS.YearFromTime, JS.MonthFromTime,
    JS.DateFromTime, JS.MakeDate, JS.TimeWithinDay.
  set (t := JS.LocalTime d).
  rewrite MakeDay_DateFromDay.
  unfold JS.LocalTime at 1. fold t.
  pose proof (Z.div_mod t JS.msPerDay ltac:(discriminate)) as Hdm.
  unfold JS.Day. lia.
Qed.

Lemma WeekDay_range (t : Z) : 0 <= JS.WeekDay t <= 6.
Proof. unfold JS.WeekDay. pose proof (Z.mod_pos_bound (JS.Day t + 4) 7). lia. Qed.

Lemma firstDayOfWeek_local (now : Z) :
  JS.LocalTime (Server.firstDayOfWeek now) =
  JS.LocalTime now
  + (- JS.getDay now + (if JS.getDay now =? 0 then -6 else 1)) * JS.msPerDay.
Proof.
  unfold Server.firstDayOfWeek.
  replace (JS.getDate now - JS.getDay now + (if JS.getDay now =? 0 then -6 else 1))
    with (JS.getDate now + (- JS.getDay now + (if JS.getDay now =? 0 then -6 else 1)))
    by lia.
  apply LocalTime_setDate.
Qed.

(** C5. The week of the period starts on Monday: the first day is a Monday
    (day 1 of [getDay]), six days before today when today is a Sunday and
    otherwise the Monday of today's week; the last day is the Sunday six days
    after it, and today lies between them.  Days are those of the local
    calendar, on which [getDay], [getDate] and [setDate] work. *)
Theorem week_starts_on_monday (now : Z) :
  let first := Server.firstDayOfWeek now in
  let last := Server.lastDayOfWeek now in
  let today := JS.Day (JS.LocalTime now) in
  JS.getDay first = 1
  /\ (JS.getDay now = 0 -> JS.Day (JS.LocalTime first) = today - 6)
  /\ (JS.getDay now <> 0 -> JS.Day (JS.LocalTime first) = today - (JS.getDay now - 1))
  /\ JS.Day (JS.LocalTime first) <= today <= JS.Day (JS.LocalTime last)
  /\ JS.Day (JS.LocalTime last) = JS.Day (JS.LocalTime first) + 6
  /\ JS.getDay last = 0.
Proof.
  intros first last today. subst first last today.
  assert (Hl : JS.LocalTime (Server.lastDayOfWeek now) =
               JS.LocalTime (Server.firstDayOfWeek now) + 6 * JS.msPerDay)
    by apply LocalTime_setDate.
  pose proof (firstDayOfWeek_local now) as Hf.
  pose proof (WeekDay_range (JS.LocalTime now)) as Hr.
  unfold JS.getDay in *. rewrite Hl, Day_shift, Hf, Day_shift.
  unfold JS.WeekDay in *. rewrite !Day_shift.
  set (d := JS.Day (JS.LocalTime now)) in *.
  destruct ((d + 4) mod 7 =? 0) eqn:E;
    [apply Z.eqb_eq in E|apply Z.eqb_neq in E];
    repeat split; try lia; Z.div_mod_to_equations; lia.
Qed.
(** The days bound to the statement are the UTC days of the two Date
    objects: they are the Monday and the Sunday of the local calendar when
    the UTC day of the request is its local day. *)
Lemma week_parameters (now : Z) :
  JS.Day now = JS.Day (JS.LocalTime now) ->
  JS.toISODate (Server.firstDayOfWeek now)
    = JS.Day (JS.LocalTime (Server.firstDayOfWeek now))
  /\ JS.toISODate (Server.lastDayOfWeek now)
    = JS.Day (JS.LocalTime (Server.lastDayOfWeek now)).
Proof.
  intros Hday.
  assert (Hshift : forall d k,
             JS.setDate d (JS.getDate d + k) = d + k * JS.msPerDay).
  { intros d k. pose proof (LocalTime_setDate d k) as Hl.
    revert Hl. generalize (JS.setDate d (JS.getDate d + k)). intros s Hl.
    unfold JS.LocalTime in Hl. lia. }
  assert (Hf : exists k, Server.firstDayOfWeek now = now + k * JS.msPerDay).
  { exists (- JS.getDay now + (if JS.getDay now =? 0 then -6 else 1)).
    unfold Server.firstDayOfWeek. rewrite <- Hshift. f_equal. lia. }
  destruct Hf as [k Hf].
  unfold Server.lastDayOfWeek, JS.toISODate. rewrite Hshift, Hf.
  unfold JS.LocalTime in *.
  replace (now + k * JS.msPerDay + 6 * JS.msPerDay)
    with (now + (k + 6) * JS.msPerDay) by lia.
  replace (now + k * JS.msPerDay + JS.LocalTZA)
    with (now + JS.LocalTZA + k * JS.msPerDay) by lia.
  replace (now + (k + 6) * JS.msPerDay + JS.LocalTZA)
    with (now + JS.LocalTZA + (k + 6) * JS.msPerDay) by lia.
  rewrite !Day_shift. lia.
Qed.

End WeekPeriod.

Lemma week_starts_on_monday_witness :
  let now := Server.now Examples.margarita_world in
  @JS.getDay Examples.lisbon_summer now = 0
  /\ JS.Day (@JS.LocalTime Examples.lisbon_summer
               (@Server.firstDayOfWeek Examples.lisbon_summer now))
     = JS.Day (@JS.LocalTime Examples.lisbon_summer now) - 6.
Proof.
  split; [reflexivity|].
  apply (proj1 (proj2 (@week_starts_on_monday Examples.lisbon_summer
                         (Server.now Examples.margarita_world)))).
  reflexivity.
Defined.

(** The two Date objects are handed to the statement through
    [toISOString], which writes the day in UTC: half an hour after a local
    midnight in the zone UTC+1 the first parameter is the Sunday. *)
Remark week_parameters_in_utc :
  let now := Examples.march 3 * JS.msPerDay + 23 * 3600000 + 1800000 in
  @JS.getDay Examples.lisbon_summer now = 1
  /\ @Server.firstDayOfWeek Examples.lisbon_summer now = now
  /\ JS.toISODate (@Server.firstDayOfWeek Examples.lisbon_summer now)
     = Examples.march 3
  /\ JS.WeekDay (Examples.march 3 * JS.msPerDay) = 0.
Proof. vm_compute. repeat split; reflexivity. Qed.


(** ** The lookup of the recipe *)
Section Hydrate.

Context `{JS.Runtime}.

(** The promise chain, case by case. *)
Lemma hydrate_cases (w : Server.World) (id : string) :
  Server.hydrate w id =
  match Spec.upstream_data w id with
  | JS.Rejected _ => Server.res_status_send 500 "Error fetching from the API"
  | JS.Fulfilled JS.JNull => Server.res_status_send 500 "Error fetching from the API"
  | JS.Fulfilled data =>
      match JS.member data "drinks" with
      | Some d =>
          if JS.truthy (Some d) && JS.gt_zero (JS.member d "length")
          then Server.res_json (JS.element d 0)
          else Server.res_status_send 404 "Cocktail not found"
      | None => Server.res_status_send 404 "Cocktail not found"
      end
  end.
Proof.
  unfold Server.hydrate. fold (Spec.upstream_data w id).
  destruct (Spec.upstream_data w id) as [data|e]; [|reflexivity].
  unfold Server.reply_with_first_drink.
  destruct data; cbn [JS.then_ JS.catch_]; try reflexivity;
    break_member d Ed; try reflexivity; break_if; reflexivity.
Qed.

Lemma gt_zero_length_cons (x : JS.json) (rest : list JS.json) :
  JS.gt_zero (JS.member (JS.JArr (x :: rest)) "length") = true.
Proof. reflexivity. Qed.

(** The status of the answer is 200, 404 or 500. *)
Lemma hydrate_status (w : Server.World) (id : string) :
  Server.status (Server.hydrate w id) = 200
  \/ Server.status (Server.hydrate w id) = 404
  \/ Server.status (Server.hydrate w id) = 500.
Proof.
  rewrite hydrate_cases.
  destruct (Spec.upstream_data w id) as [data|e]; [|auto].
  destruct data; auto; break_member d Ed; auto; break_if; auto.
Qed.

(** An answer with status 200 carries element 0 of [drinks], as it came. *)
Lemma hydrate_200 (w : Server.World) (id : string) :
  Server.status (Server.hydrate w id) = 200 ->
  exists data d,
    Spec.upstream_data w id = JS.Fulfilled data
    /\ JS.member data "drinks" = Some d
    /\ Server.hydrate w id = Server.res_json (JS.element d 0).
Proof.
  rewrite hydrate_cases.
  destruct (Spec.upstream_data w id) as [data|e]; [|discriminate].
  destruct data; try discriminate;
    break_member d Ed; try discriminate; break_if; try discriminate;
    intros _; eexists; exists d; repeat split; exact Ed.
Qed.

(** The answers with status 500 and 404, and the answer to a non-empty
    array. *)
Lemma hydrate_classes (w : Server.World) (id : string) :
  let r := Server.hydrate w id in
  (Server.status r = 500 <->
     (exists e, Spec.upstream_data w id = JS.Rejected e)
     \/ Spec.upstream_data w id = JS.Fulfilled JS.JNull)
  /\ (Server.status r = 404 <->
     exists data,
       Spec.upstream_data w id = JS.Fulfilled data
       /\ data <> JS.JNull
       /\ (JS.truthy (JS.member data "drinks") = false
           \/ exists d, JS.member data "drinks" = Some d
                        /\ JS.gt_zero (JS.member d "length") = false))
  /\ (forall data,
        Spec.upstream_data w id = JS.Fulfilled data ->
        data <> JS.JNull ->
        JS.member data "drinks" = None \/ Spec.zero_drinks data ->
        r = Server.res_status_send 404 "Cocktail not found")
  /\ (forall data x rest,
        Spec.upstream_data w id = JS.Fulfilled data ->
        JS.member data "drinks" = Some (JS.JArr (x :: rest)) ->
        r = Server.res_json (Some x)).
Proof.
  intros r. subst r. rewrite hydrate_cases.
  destruct (Spec.upstream_data w id) as [data|e].
  2:{ split; [|split; [|split]].
      - split; [intros _; left; exists e; reflexivity|reflexivity].
      - split; [discriminate|]. intros [data [Hd _]]. discriminate.
      - intros data Hd. discriminate.
      - intros data x rest Hd. discriminate. }
  assert (Hnull : data = JS.JNull \/ data <> JS.JNull)
    by (destruct data; auto; right; discriminate).
  destruct Hnull as [->|Hnn].
  { split; [|split; [|split]].
    - split; [intros _; right; reflexivity|reflexivity].
    - split; [discriminate|]. intros [data [Hd [Hn _]]]. congruence.
    - intros data Hd Hn. congruence.
    - intros data x rest Hd Hdr. injection Hd as <-. discriminate. }
  assert (Hcases :
    match data with
    | JS.JNull => Server.res_status_send 500 "Error fetching from the API"
    | _ =>
        match JS.member data "drinks" with
        | Some d =>
            if JS.truthy (Some d) && JS.gt_zero (JS.member d "length")
            then Server.res_json (JS.element d 0)
            else Server.res_status_send 404 "Cocktail not found"
        | None => Server.res_status_send 404 "Cocktail not found"
        end
    end =
    match JS.member data "drinks" with
    | Some d =>
        if JS.truthy (Some d) && JS.gt_zero (JS.member d "length")
        then Server.res_json (JS.element d 0)
        else Server.res_status_send 404 "Cocktail not found"
    | None => Server.res_status_send 404 "Cocktail not found"
    end) by (destruct data; congruence).
  rewrite Hcases. clear Hcases.
  split; [|split; [|split]].
  - split.
    + destruct (JS.member data "drinks") as [d|]; [|discriminate].
      destruct (JS.truthy (Some d) && JS.gt_zero (JS.member d "length"));
        discriminate.
    + intros [[e He]|He]; [discriminate|]. congruence.
  - split.
    + intros Hs. exists data. split; [reflexivity|]. split; [assumption|].
      destruct (JS.member data "drinks") as [d|]; [|left; reflexivity].
      destruct (JS.truthy (Some d)) eqn:Et; [|left; reflexivity].
      destruct (JS.gt_zero (JS.member d "length")) eqn:Eg; [discriminate|].
      right. exists d. split; [reflexivity|assumption].
    + intros [data' [Hd [_ Hfalsy]]]. injection Hd as <-.
      destruct (JS.member data "drinks") as [d|]; [|reflexivity].
      destruct Hfalsy as [Ht|[d' [Hd' Hg]]].
      * rewrite Ht. reflexivity.
      * injection Hd' as <-. rewrite Hg, andb_false_r. reflexivity.
  - intros data' Hd _ Hz. injection Hd as <-.
    destruct Hz as [Hz|[Hz|Hz]]; rewrite Hz; reflexivity.
  - intros data' x rest Hd Hdr. injection Hd as <-.
    rewrite Hdr, gt_zero_length_cons. reflexivity.
Qed.

(** C8, the claim as written fails: a body without a [drinks] field is not
    of the documented shape, yet the answer is 404, not 500. *)
Lemma hydrate_malformed_is_404 :
  Server.status (Examples.lookup (JS.JObj [])) = 404
  /\ ~ @Spec.classified Examples.lisbon_summer
         (Examples.answering (JS.JObj [])) "11007".
Proof.
  split; [reflexivity|].
  intros [H500 _].
  assert (Hs : Server.status (Examples.lookup (JS.JObj [])) = 500).
  { apply H500. right. exists (JS.JObj []). split; [reflexivity|].
    intros [Hn|[items Hi]]; discriminate. }
  discriminate Hs.
Qed.

(** C8, amended. The lookup answers 500 exactly when the call to the API
    fails, its body is not JSON, or the body is the JSON null; it answers 404
    exactly when the parsed body is not null and its [drinks] is falsy or has
    no length above 0, which holds for a missing, null or empty [drinks]; in
    every other case it returns element 0 of [drinks], which is the first
    element, unmodified, when [drinks] is a non-empty array. *)
Theorem hydrate_outcomes (w : Server.World) (id : string) :
  let r := Server.hydrate w id in
  (Server.status r = 500 <->
     (exists e, Spec.upstream_data w id = JS.Rejected e)
     \/ Spec.upstream_data w id = JS.Fulfilled JS.JNull)
  /\ (Server.status r = 404 <->
     exists data,
       Spec.upstream_data w id = JS.Fulfilled data
       /\ data <> JS.JNull
       /\ (JS.truthy (JS.member data "drinks") = false
           \/ exists d, JS.member data "drinks" = Some d
                        /\ JS.gt_zero (JS.member d "length") = false))
  /\ (forall data,
        Spec.upstream_data w id = JS.Fulfilled data ->
        data <> JS.JNull ->
        JS.member data "drinks" = None \/ Spec.zero_drinks data ->
        r = Server.res_status_send 404 "Cocktail not found")
  /\ (forall data x rest,
        Spec.upstream_data w id = JS.Fulfilled data ->
        JS.member data "drinks" = Some (JS.JArr (x :: rest)) ->
        r = Server.res_json (Some x))
  /\ (Server.status r <> 500 -> Server.status r <> 404 ->
      exists data d,
        Spec.upstream_data w id = JS.Fulfilled data
        /\ JS.member data "drinks" = Some d
        /\ r = Server.res_json (JS.element d 0)).
Proof.
  intros r.
  destruct (hydrate_classes w id) as [H500 [H404 [Hzero Hfirst]]].
  fold r in H500, H404, Hzero, Hfirst.
  split; [exact H500|]. split; [exact H404|].
  split; [exact Hzero|]. split; [exact Hfirst|].
  intros Hn500 Hn404. apply hydrate_200.
  destruct (hydrate_status w id) as [Hs|[Hs|Hs]]; [exact Hs|contradiction..].
Qed.

End Hydrate.

Lemma hydrate_outcomes_witness :
  Server.status (Examples.lookup JS.JNull) = 500
  /\ Examples.lookup (JS.JObj [("drinks"%string, JS.JNull)])
     = Server.res_status_send 404 "Cocktail not found"
  /\ Examples.lookup (JS.JObj [("drinks"%string, JS.JArr [Examples.margarita])])
     = Server.res_json (Some Examples.margarita).
Proof.
  split; [|split].
  - apply (proj1 (@hydrate_outcomes Examples.lisbon_summer
                    (Examples.answering JS.JNull) "11007")).
    right. reflexivity.
  - apply (proj1 (proj2 (proj2
             (@hydrate_outcomes Examples.lisbon_summer
                (Examples.answering (JS.JObj [("drinks"%string, JS.JNull)]))
                "11007")))
             (JS.JObj [("drinks"%string, JS.JNull)])).
    + reflexivity.
    + discriminate.
    + right. left. reflexivity.
  - apply (proj1 (proj2 (proj2 (proj2
             (@hydrate_outcomes Examples.lisbon_summer
                Examples.margarita_world "11007"))))
             (JS.JObj [("drinks"%string, JS.JArr [Examples.margarita])])
             Examples.margarita []); reflexivity.
Defined.

(** The API answers some requests with a text in place of the array; the
    lookup then returns its first letter. *)
Remark hydrate_text_drinks :
  Examples.lookup (JS.JObj [("drinks"%string, JS.JStr "no data found")])
  = Server.res_json (Some (JS.JStr "n")).
Proof. reflexivity. Qed.

(** ** GET /cocktail-by-mood *)
Section MoodLookup.

Import SQLite.
Context `{JS.Runtime}.

Lemma select_mood_In (mood : string) (random : nat) (db : Db) (m : MoodEntry) :
  select_mood (Some mood) random db = Some m ->
  In m (Moods db) /\ Mood m = mood.
Proof.
  unfold select_mood. intros Hn.
  apply nth_error_In in Hn. apply filter_In in Hn.
  destruct Hn as [Hin Heq]. split; [assumption|].
  apply String.eqb_eq. exact Heq.
Qed.

Lemma select_mood_some (mood : string) (random : nat) (db : Db) (m : MoodEntry) :
  In m (Moods db) -> Mood m = mood ->
  exists m', select_mood (Some mood) random db = Some m'.
Proof.
  intros Hin Hm. unfold select_mood.
  set (rows := filter (fun m0 => sql_eq (Some (Mood m0)) (Some mood)) (Moods db)).
  assert (Hrow : In m rows).
  { apply filter_In. split; [assumption|]. apply String.eqb_eq. exact Hm. }
  assert (Hlen : List.length rows <> 0%nat)
    by (destruct rows; [contradiction|discriminate]).
  destruct (nth_error rows (random mod List.length rows)) as [m'|] eqn:E.
  - exists m'. reflexivity.
  - apply nth_error_None in E.
    pose proof (Nat.mod_upper_bound random (List.length rows) Hlen). lia.
Qed.

Lemma select_mood_none (mood : string) (random : nat) (db : Db) :
  (forall m, In m (Moods db) -> Mood m <> mood) ->
  select_mood (Some mood) random db = None.
Proof.
  intros Hno.
  destruct (select_mood (Some mood) random db) as [m|] eqn:E; [|reflexivity].
  apply select_mood_In in E. destruct E as [Hin Hm].
  exfalso. exact (Hno m Hin Hm).
Qed.

(** C9. When the entries whose mood is exactly the given label all name one
    cocktail id, as when there is exactly one such entry, the lookup resolves
    to that id whatever the draw, and the recipe of that id is looked up;
    when no entry has the label, the answer is the 404 "No cocktails found
    for this mood".  Labels are compared letter by letter, with their
    case. *)
Theorem mood_lookup (w : Server.World) (db : Db) (mood : string) :
  fault db = None ->
  (forall i,
      (exists m, In m (Moods db) /\ Mood m = mood) ->
      (forall m, In m (Moods db) -> Mood m = mood -> ID m = i) ->
      (exists m, select_mood (Some mood) (Server.random w) db = Some m /\ ID m = i)
      /\ Server.cocktail_by_mood w db (Some mood) = Server.hydrate w i)
  /\ ((forall m, In m (Moods db) -> Mood m <> mood) ->
      select_mood (Some mood) (Server.random w) db = None
      /\ Server.cocktail_by_mood w db (Some mood)
         = Server.res_status_send 404 "No cocktails found for this mood").
Proof.
  intros Hf. unfold Server.cocktail_by_mood, get. rewrite Hf. split.
  - intros i [m [Hin Hm]] Hone.
    destruct (select_mood_some mood (Server.random w) db m Hin Hm) as [m' Hsel].
    rewrite Hsel.
    destruct (select_mood_In _ _ _ _ Hsel) as [Hin' Hm'].
    rewrite <- (Hone m' Hin' Hm').
    split; [exists m'; split; reflexivity|reflexivity].
  - intros Hno. rewrite (select_mood_none _ _ _ Hno). split; reflexivity.
Qed.

End MoodLookup.

Lemma mood_lookup_witness :
  Examples.by_mood "happy"
    = @Server.hydrate Examples.lisbon_summer Examples.margarita_world "11007"
  /\ Examples.by_mood "HAPPY"
    = Server.res_status_send 404 "No cocktails found for this mood".
Proof.
  destruct (@mood_lookup Examples.lisbon_summer
              Examples.margarita_world Examples.march_store "happy" eq_refl)
    as [Hone _].
  destruct (@mood_lookup Examples.lisbon_summer
              Examples.margarita_world Examples.march_store "HAPPY" eq_refl)
    as [_ Hnone].
  split.
  - apply (Hone "11007"%string).
    + eexists. split; [left; reflexivity|reflexivity].
    + intros m [ <- | [ <- | [] ] ] Hm; [reflexivity|discriminate].
  - apply Hnone.
    intros m [ <- | [ <- | [] ] ]; discriminate.
Defined.

(** ** The recipe routes return the record of the API *)
Section RecipeRoutes.

Import SQLite.
Context `{JS.Runtime}.

(** C7, the claim as written fails: the answers of the by-mood route and of
    the top-rated route carry the record of the API alone, without the
    fields averageRating and ratingCount. *)
Lemma recipe_without_aggregate :
  Server.status (Examples.by_mood "happy") = 200
  /\ ~ Spec.has_aggregate (Examples.by_mood "happy")
  /\ Server.status Examples.top_of_month = 200
  /\ ~ Spec.has_aggregate Examples.top_of_month.
Proof.
  split; [reflexivity|]. split; [intros [Ha _]; apply Ha; reflexivity|].
  split; [reflexivity|]. intros [Ha _]. apply Ha. reflexivity.
Qed.

(** C7, amended. For the cocktail identifier that a recipe route resolves (by
    mood, or top-rated of the month or of the week), an answer with status
    200 is the record that the API hands over for that identifier, as it is:
    element 0 of the [drinks] of the upstream body.  No aggregate rating is
    merged into it: it has a field exactly when that record has it. *)
Theorem recipe_routes_pass_through (w : Server.World) (db : Db) (rt : Spec.route) :
  Server.status (Spec.answer w db rt) = 200 ->
  exists id data d,
    Spec.resolved w db rt = Some id
    /\ Spec.upstream_data w id = JS.Fulfilled data
    /\ JS.member data "drinks" = Some d
    /\ Spec.answer w db rt = Server.res_json (JS.element d 0)
    /\ forall name,
         Spec.field name (Spec.answer w db rt) =
         match JS.element d 0 with
         | Some record => JS.member record name
         | None => None
         end.
Proof.
  assert (Hh : forall id,
             Server.status (Server.hydrate w id) = 200 ->
             exists data d,
               Spec.upstream_data w id = JS.Fulfilled data
               /\ JS.member data "drinks" = Some d
               /\ Server.hydrate w id = Server.res_json (JS.element d 0)
               /\ forall name,
                    Spec.field name (Server.hydrate w id) =
                    match JS.element d 0 with
                    | Some record => JS.member record name
                    | None => None
                    end).
  { intros id Hs. destruct (hydrate_200 w id Hs) as [data [d [Hu [Hd Hr]]]].
    exists data, d. repeat split; try assumption.
    intros name. rewrite Hr. unfold Spec.field. cbn [Server.body Server.res_json].
    destruct (JS.element d 0); reflexivity. }
  destruct rt as [mood| |];
    unfold Spec.answer, Spec.resolved, Server.cocktail_by_mood,
      Server.top_rated_cocktail, Server.top_rated_cocktail_week, get;
    (destruct (fault db); [discriminate|]);
    match goal with
    | |- context [match ?x with Some _ => _ | None => _ end] =>
        destruct x as [row|]
    end; try discriminate;
    intros Hs; destruct (Hh _ Hs) as [data [d Hrest]];
    eexists; exists data, d; (split; [reflexivity|exact Hrest]).
Qed.

End RecipeRoutes.

Lemma recipe_routes_pass_through_witness :
  Server.status (Examples.by_mood "happy") = 200
  /\ exists data d,
       @Spec.resolved Examples.lisbon_summer Examples.margarita_world
          Examples.march_store (Spec.ByMood (Some "happy"%string))
       = Some "11007"%string
       /\ Spec.upstream_data Examples.margarita_world "11007" = JS.Fulfilled data
       /\ JS.member data "drinks" = Some d
       /\ Examples.by_mood "happy" = Server.res_json (JS.element d 0)
       /\ forall name,
            Spec.field name (Examples.by_mood "happy") =
            match JS.element d 0 with
            | Some record => JS.member record name
            | None => None
            end.
Proof.
  split; [reflexivity|].
  destruct (@recipe_routes_pass_through Examples.lisbon_summer
              Examples.margarita_world Examples.march_store
              (Spec.ByMood (Some "happy"%string)) eq_refl)
    as [id [data [d [Hr [Hu Hrest]]]]].
  assert (Hid : id = "11007"%string).
  { vm_compute in Hr. injection Hr as <-. reflexivity. }
  subst id. exists data, d.
  split; [reflexivity|]. split; [exact Hu|exact Hrest].
Defined.

(** ** GROUP BY and ORDER BY *)
Section Ordering.
Import SQLite.

Lemma same_key_eq (a b : option string) : same_key a b = true <-> a = b.
Proof.
  destruct a as [x|], b as [y|]; simpl; split; try congruence; try reflexivity.
  - intros E. apply String.eqb_eq in E. congruence.
  - intros [= ->]. apply String.eqb_refl.
Qed.

Lemma sql_lt_asym (a b : option Q) : sql_lt a b = true -> sql_lt b a = false.
Proof.
  destruct a as [x|], b as [y|]; simpl; try congruence.
  intros E. apply negb_true_iff in E. apply negb_false_iff.
  apply Qle_bool_iff.
  destruct (Qlt_le_dec y x) as [Hlt|Hle].
  - apply Qlt_le_weak in Hlt. apply Qle_bool_iff in Hlt. congruence.
  - exact Hle.
Qed.

Lemma sql_le_trans (a b c : option Q) :
  sql_lt a b = false -> sql_lt b c = false -> sql_lt a c = false.
Proof.
  destruct a as [x|], b as [y|], c as [z|]; simpl; try congruence.
  rewrite !negb_false_iff, !Qle_bool_iff.
  intros H1 H2. eapply Qle_trans; eassumption.
Qed.

Lemma order_desc_limit_1_nil (l : list TopRow) :
  order_desc_limit_1 l = None -> l = [].
Proof.
  destruct l as [|x l]; [reflexivity|]. simpl.
  destruct (order_desc_limit_1 l) as [y|]; [|discriminate].
  break_if; discriminate.
Qed.

Lemma sql_le_refl (a : option Q) : sql_lt a a = false.
Proof.
  destruct a as [q|]; simpl; [|reflexivity].
  apply negb_false_iff, Qle_bool_iff, Qle_refl.
Qed.

Lemma order_desc_limit_1_max (l : list TopRow) (x : TopRow) :
  order_desc_limit_1 l = Some x ->
  In x l /\ forall y, In y l -> sql_lt (top_avgRating x) (top_avgRating y) = false.
Proof.
  revert x. induction l as [|a l IH]; intros x; simpl; [discriminate|].
  destruct (order_desc_limit_1 l) as [b|] eqn:E.
  - destruct (IH b eq_refl) as [Hin Hmax].
    destruct (sql_lt (top_avgRating a) (top_avgRating b)) eqn:Elt;
      cbn [orb].
    + intros [= <-]. split; [right; assumption|].
      intros y [<-|Hy]; [apply sql_lt_asym; assumption|apply Hmax; assumption].
    + destruct (sql_lt (top_avgRating b) (top_avgRating a)) eqn:Egt;
        cbn [negb andb].
      * intros [= <-]. split; [left; reflexivity|].
        intros y [<-|Hy]; [apply sql_le_refl|].
        eapply sql_le_trans; [exact Elt|apply Hmax; assumption].
      * destruct (key_lt (top_cocktail_id a) (top_cocktail_id b));
          intros [= <-].
        -- split; [right; assumption|].
           intros y [<-|Hy]; [exact Egt|apply Hmax; assumption].
        -- split; [left; reflexivity|].
           intros y [<-|Hy]; [apply sql_le_refl|].
           eapply sql_le_trans; [exact Elt|apply Hmax; assumption].
  - intros [= <-]. apply order_desc_limit_1_nil in E. subst l.
    split; [left; reflexivity|].
    intros y [<-|[]]. apply sql_le_refl.
Qed.

Lemma group_keys_In (rows : list Rating) (k : option string) :
  In k (group_keys rows) <-> exists r, In r rows /\ cocktail_id r = k.
Proof.
  induction rows as [|r rows IH]; simpl.
  - split; [contradiction|intros [r [[] _]]].
  - split.
    + intros [<-|Hin].
      * exists r. split; [left; reflexivity|reflexivity].
      * apply filter_In in Hin. destruct Hin as [Hin _].
        apply IH in Hin. destruct Hin as [r' [Hr' Hk]].
        exists r'. split; [right; assumption|assumption].
    + intros [r' [[<-|Hr'] Hk]]; [left; assumption|].
      destruct (same_key k (cocktail_id r)) eqn:E.
      * left. apply same_key_eq in E. congruence.
      * right. apply filter_In. split; [|rewrite E; reflexivity].
        apply IH. exists r'. split; assumption.
Qed.

Lemma grouped_avg_In (rows : list Rating) (x : TopRow) :
  In x (grouped_avg rows) <->
  (exists r, In r rows /\ cocktail_id r = top_cocktail_id x)
  /\ top_avgRating x = AVG (map rating (group_rows (top_cocktail_id x) rows)).
Proof.
  unfold grouped_avg. rewrite in_map_iff. split.
  - intros [k [<- Hk]]. cbn [top_cocktail_id top_avgRating].
    split; [apply group_keys_In; assumption|reflexivity].
  - intros [Hk Havg]. exists (top_cocktail_id x). split.
    + destruct x as [k a]. cbn [top_cocktail_id top_avgRating] in *.
      congruence.
    + apply group_keys_In. assumption.
Qed.

Lemma group_rows_filter (f : Rating -> bool) (k : option string) (rows : list Rating) :
  group_rows k (filter f rows) =
  filter (fun r => same_key (cocktail_id r) k && f r) rows.
Proof.
  unfold group_rows.
  induction rows as [|r rows IH]; simpl; [reflexivity|].
  destruct (f r); simpl.
  - destruct (same_key (cocktail_id r) k); simpl; congruence.
  - rewrite andb_false_r. assumption.
Qed.

End Ordering.

(** ** The WHERE clause of the month *)
Section MonthFilter.
Import SQLite.

Lemma reads_minus (s : string) : Spec.reads (String "-" s) = None.
Proof.
  unfold Spec.reads. cbn [NilEmpty.uint_of_string].
  destruct (NilEmpty.uint_of_string s); reflexivity.
Qed.

Lemma reads_toString (n : Z) :
  Spec.reads (JS.toString n) = if n <? 0 then None else Some n.
Proof.
  unfold JS.toString. destruct (n <? 0) eqn:E.
  - apply reads_minus.
  - apply Z.ltb_ge in E. apply reads_digits. assumption.
Qed.

Lemma reads_padStart (s : string) (n : nat) :
  Spec.reads (JS.padStart s n) = Spec.reads s.
Proof. apply reads_zeros. Qed.

Lemma of_lu_bound (d : Decimal.uint) :
  (DecimalPos.Unsigned.of_lu d < 10 ^ DecimalPos.Unsigned.usize d)%N.
Proof.
  induction d; cbn [DecimalPos.Unsigned.of_lu DecimalPos.Unsigned.usize];
    rewrite ?N.pow_succ_r'; [reflexivity|lia..].
Qed.

Lemma usize_length (d : Decimal.uint) :
  DecimalPos.Unsigned.usize d = N.of_nat (String.length (NilEmpty.string_of_uint d)).
Proof.
  induction d; cbn [DecimalPos.Unsigned.usize NilEmpty.string_of_uint String.length];
    rewrite ?Nat2N.inj_succ, ?IHd; reflexivity.
Qed.

Lemma usize_nb_digits (d : Decimal.uint) :
  DecimalPos.Unsigned.usize d = N.of_nat (Decimal.nb_digits d).
Proof.
  induction d; cbn [DecimalPos.Unsigned.usize Decimal.nb_digits];
    rewrite ?Nat2N.inj_succ, ?IHd; reflexivity.
Qed.

Lemma of_uint_bound (d : Decimal.uint) :
  (N.of_uint d < 10 ^ N.of_nat (String.length (NilEmpty.string_of_uint d)))%N.
Proof.
  unfold N.of_uint. rewrite DecimalPos.Unsigned.of_uint_alt.
  rewrite <- usize_length, usize_nb_digits, <- nb_digits_rev, <- usize_nb_digits.
  apply of_lu_bound.
Qed.

Lemma digits_length (y : Z) (k : nat) :
  10 ^ Z.of_nat k <= y -> (k < String.length (JS.digits y))%nat.
Proof.
  intros Hy.
  assert (Hpos : 0 < 10 ^ Z.of_nat k) by (apply Z.pow_pos_nonneg; lia).
  unfold JS.digits.
  pose proof (of_uint_bound (N.to_uint (Z.to_N y))) as Hb.
  rewrite DecimalN.Unsigned.of_to in Hb.
  assert (Hs : NilZero.string_of_uint (N.to_uint (Z.to_N y))
               = NilEmpty.string_of_uint (N.to_uint (Z.to_N y))).
  { destruct (N.to_uint (Z.to_N y)) eqn:E; try reflexivity.
    simpl in Hb. lia. }
  rewrite Hs.
  set (len := String.length (NilEmpty.string_of_uint (N.to_uint (Z.to_N y)))) in *.
  destruct (Nat.lt_ge_cases k len) as [Hlt|Hge]; [assumption|exfalso].
  assert (Hle : (10 ^ N.of_nat len <= 10 ^ N.of_nat k)%N)
    by (apply N.pow_le_mono_r; lia).
  assert (Hk : Z.of_N (10 ^ N.of_nat k) = 10 ^ Z.of_nat k).
  { rewrite N2Z.inj_pow, nat_N_Z. reflexivity. }
  lia.
Qed.

Lemma four_digits (y : Z) :
  1000 <= y -> JS.padStart (JS.digits y) 4 = JS.digits y.
Proof.
  intros Hy. unfold JS.padStart.
  pose proof (digits_length y 3 Hy) as Hl.
  replace (4 - String.length (JS.digits y))%nat with 0%nat by lia.
  reflexivity.
Qed.

Lemma sql_eq_Some (c : option string) (p : string) :
  sql_eq c (Some p) = true <-> c = Some p.
Proof.
  destruct c as [x|]; simpl; split; try congruence.
  - intros E. apply String.eqb_eq in E. congruence.
  - intros [= ->]. apply String.eqb_refl.
Qed.

(** A row that the WHERE clause keeps has its date in the month and year
    whose numbers were bound. *)
Lemma in_month_sound (year month : Z) (r : Rating) :
  in_month (JS.padStart (JS.toString month) 2) (JS.toString year) r = true ->
  0 <= month ->
  Spec.in_period year month r = true.
Proof.
  unfold in_month, Spec.in_period, strftime_m, strftime_Y.
  intros Hin Hmonth. apply andb_prop in Hin. destruct Hin as [Hm Hy].
  destruct (rated_date r) as [d|]; [|discriminate].
  destruct (valid_day d) eqn:Ev; [|discriminate].
  apply sql_eq_Some in Hm. apply sql_eq_Some in Hy.
  injection Hm as Hm. injection Hy as Hy.
  unfold valid_day in Ev. apply andb_prop in Ev. destruct Ev as [Ev0 Ev1].
  apply Z.leb_le in Ev0.
  pose proof (MonthFromDay_range d) as Hr.
  apply (f_equal Spec.reads) in Hm. apply (f_equal Spec.reads) in Hy.
  rewrite !reads_padStart, reads_toString in Hm.
  rewrite reads_padStart, reads_toString in Hy.
  rewrite reads_digits in Hm by lia. rewrite reads_digits in Hy by lia.
  destruct (month <? 0) eqn:Em; [apply Z.ltb_lt in Em; lia|].
  destruct (year <? 0) eqn:Ey; [discriminate|].
  injection Hm as Hm. injection Hy as Hy.
  apply andb_true_intro. split; apply Z.eqb_eq; assumption.
Qed.

(** In a year of four digits the clause keeps every row of the month. *)
Lemma in_month_complete (year month : Z) (r : Rating) :
  1000 <= year <= 9999 ->
  Spec.in_period year month r = true ->
  in_month (JS.padStart (JS.toString month) 2) (JS.toString year) r = true.
Proof.
  unfold in_month, Spec.in_period, strftime_m, strftime_Y.
  intros Hyear Hin.
  destruct (rated_date r) as [d|]; [|discriminate].
  apply andb_prop in Hin. destruct Hin as [Hy Hm].
  apply Z.eqb_eq in Hy. apply Z.eqb_eq in Hm.
  pose proof (MonthFromDay_range d) as Hr.
  assert (Hv : valid_day d = true).
  { unfold valid_day. apply andb_true_intro. split; apply Z.leb_le; lia. }
  rewrite Hv, Hy, Hm.
  assert (Hts : forall n, 0 <= n -> JS.toString n = JS.digits n).
  { intros n Hn. unfold JS.toString.
    destruct (n <? 0) eqn:E; [apply Z.ltb_lt in E; lia|reflexivity]. }
  rewrite !Hts by lia. rewrite four_digits by lia.
  apply andb_true_intro. split; apply String.eqb_refl.
Qed.

End MonthFilter.

(** ** GET /top-rated-cocktail *)
Section TopRatedMonth.
Import SQLite.
Context `{JS.Runtime}.

Lemma currentMonth_range (w : Server.World) : 1 <= Server.currentMonth w <= 12.
Proof.
  unfold Server.currentMonth, JS.getMonth, JS.MonthFromTime.
  pose proof (MonthFromDay_range (JS.Day (JS.LocalTime (Server.now w)))). lia.
Qed.



End TopRatedMonth.


(** ** Submissions and the other routes *)
Section SubmitMore.
Import SQLite.

Lemma average_rating_rows (db1 db2 : Db) (cocktailId : string) :
  fault db1 = fault db2 ->
  Spec.rows_of cocktailId db1 = Spec.rows_of cocktailId db2 ->
  Server.average_rating db1 cocktailId = Server.average_rating db2 cocktailId.
Proof.
  intros Hf Hr. unfold Server.average_rating, get, select_average.
  fold (Spec.rows_of cocktailId db1). fold (Spec.rows_of cocktailId db2).
  rewrite Hf, Hr. reflexivity.
Qed.

Lemma submit_rating_fault (db : Db) (b : Server.RatingBody) :
  fault (fst (Server.submit_rating db b)) = fault db.
Proof.
  unfold Server.submit_rating. destruct (fault db) eqn:E; simpl; congruence.
Qed.

Lemma submit_rating_rows (db : Db) (b : Server.RatingBody) (cocktailId : string) :
  Spec.rows_of cocktailId (fst (Server.submit_rating db b)) =
  Spec.rows_of cocktailId db
  ++ (if sql_eq (Server.id b) (Some cocktailId)
      then match fault db with
           | None => [ {| cocktail_id := Server.id b;
                          rating := Server.rating b;
                          rated_date := Server.date b |} ]
           | Some _ => []
           end
      else []).
Proof.
  unfold Server.submit_rating. destruct (fault db) eqn:E; cbn [fst].
  - destruct (sql_eq (Server.id b) (Some cocktailId)); rewrite List.app_nil_r; reflexivity.
  - rewrite rows_of_insert. reflexivity.
Qed.

(** X1. A submission for one cocktail id, whatever its fields and whether it
    is stored or refused, leaves the answer of GET /average-rating of every
    other id as it was. *)
Theorem submit_rating_other_cocktail (db : Db) (b : Server.RatingBody)
  (cocktailId : string) :
  Server.id b <> Some cocktailId ->
  Server.average_rating (fst (Server.submit_rating db b)) cocktailId
  = Server.average_rating db cocktailId.
Proof.
  intros Hid. apply average_rating_rows; [apply submit_rating_fault|].
  rewrite submit_rating_rows.
  assert (H : sql_eq (Server.id b) (Some cocktailId) = false).
  { destruct (sql_eq (Server.id b) (Some cocktailId)) eqn:E; [|reflexivity].
    apply sql_eq_Some in E. contradiction. }
  rewrite H. apply List.app_nil_r.
Qed.

Lemma submit_rating_other_cocktail_witness :
  Server.average_rating
    (fst (Server.submit_rating Examples.march_store
            (Spec.submission "B" 1 (Examples.march 5)))) "A"
  = Server.average_rating Examples.march_store "A".
Proof.
  apply submit_rating_other_cocktail.
  intros E. discriminate E.
Defined.

(** X2. POST /submit-rating is not idempotent: the second of two equal
    submissions is answered 200 like the first and stores a second row, so
    the count of the id grows by two. *)
Theorem submit_rating_twice (db : Db) (cocktailId : string) (v d : Z) :
  fault db = None ->
  let b := Spec.submission cocktailId v d in
  let twice := fst (Server.submit_rating (fst (Server.submit_rating db b)) b) in
  Server.status (snd (Server.submit_rating (fst (Server.submit_rating db b)) b)) = 200
  /\ Spec.rows_of cocktailId twice
     = Spec.rows_of cocktailId db
       ++ [ {| cocktail_id := Some cocktailId; rating := Some v; rated_date := Some d |};
            {| cocktail_id := Some cocktailId; rating := Some v; rated_date := Some d |} ]
  /\ exists n,
       Spec.field "ratingCount" (Server.average_rating db cocktailId)
         = Some (JS.JNum (inject_Z n))
       /\ Spec.field "ratingCount" (Server.average_rating twice cocktailId)
         = Some (JS.JNum (inject_Z (n + 2))).
Proof.
  intros Hf b twice. subst twice.
  assert (Hf1 : fault (fst (Server.submit_rating db b)) = None)
    by (rewrite submit_rating_fault; exact Hf).
  assert (Hf2 : fault (fst (Server.submit_rating (fst (Server.submit_rating db b)) b)) = None)
    by (rewrite submit_rating_fault; exact Hf1).
  assert (Hm : sql_eq (Server.id b) (Some cocktailId) = true)
    by apply String.eqb_refl.
  assert (Hrows : Spec.rows_of cocktailId
                    (fst (Server.submit_rating (fst (Server.submit_rating db b)) b))
                  = Spec.rows_of cocktailId db
                    ++ [ {| cocktail_id := Some cocktailId; rating := Some v;
                            rated_date := Some d |};
                         {| cocktail_id := Some cocktailId; rating := Some v;
                            rated_date := Some d |} ]).
  { rewrite !submit_rating_rows, Hm, Hf1, Hf, <- app_assoc. reflexivity. }
  split; [|split].
  - unfold Server.submit_rating at 1. rewrite Hf1. reflexivity.
  - exact Hrows.
  - exists (COUNT (map rated_date (Spec.rows_of cocktailId db))).
    rewrite (average_rating_ok db), (average_rating_ok _ _ Hf2) by assumption.
    rewrite !field_ratingCount. split; [reflexivity|].
    rewrite Hrows, map_app, COUNT_app. reflexivity.
Qed.

Lemma submit_rating_twice_witness :
  let b := Spec.submission "A" 1 (Examples.march 5) in
  let twice :=
    fst (Server.submit_rating (fst (Server.submit_rating Examples.march_store b)) b) in
  Spec.field "ratingCount" (Server.average_rating Examples.march_store "A")
    = Some (JS.JNum (inject_Z 2))
  /\ Spec.field "ratingCount" (Server.average_rating twice "A")
    = Some (JS.JNum (inject_Z 4)).
Proof.
  destruct (submit_rating_twice Examples.march_store "A" 1 (Examples.march 5) eq_refl)
    as [_ [_ [n [H1 H2]]]].
  assert (Hn : n = 2).
  { vm_compute in H1. injection H1 as H1. symmetry. exact H1. }
  subst n. split; [exact H1|exact H2].
Defined.

(** X3. The handler stores a body as it comes.  A body without a rating is
    answered 200 and stored with NULL: the row is counted and leaves the
    average as it was.  A body without a date is answered 200 and stored too:
    the row is not counted. *)
Theorem submit_rating_missing_field (db : Db) (cocktailId : string) (v d : Z) :
  fault db = None ->
  let no_rating := {| Server.id := Some cocktailId; Server.rating := None;
                      Server.date := Some d |} in
  let no_date := {| Server.id := Some cocktailId; Server.rating := Some v;
                    Server.date := None |} in
  exists n,
    Spec.field "ratingCount" (Server.average_rating db cocktailId)
      = Some (JS.JNum (inject_Z n))
    /\ Server.status (snd (Server.submit_rating db no_rating)) = 200
    /\ Spec.field "ratingCount"
         (Server.average_rating (fst (Server.submit_rating db no_rating)) cocktailId)
       = Some (JS.JNum (inject_Z (n + 1)))
    /\ Spec.field "averageRating"
         (Server.average_rating (fst (Server.submit_rating db no_rating)) cocktailId)
       = Spec.field "averageRating" (Server.average_rating db cocktailId)
    /\ Server.status (snd (Server.submit_rating db no_date)) = 200
    /\ Spec.field "ratingCount"
         (Server.average_rating (fst (Server.submit_rating db no_date)) cocktailId)
       = Some (JS.JNum (inject_Z n)).
Proof.
  intros Hf no_rating no_date.
  assert (Hf1 : fault (fst (Server.submit_rating db no_rating)) = None)
    by (rewrite submit_rating_fault; exact Hf).
  assert (Hf2 : fault (fst (Server.submit_rating db no_date)) = None)
    by (rewrite submit_rating_fault; exact Hf).
  assert (Hm : sql_eq (Some cocktailId) (Some cocktailId) = true)
    by apply String.eqb_refl.
  exists (COUNT (map rated_date (Spec.rows_of cocktailId db))).
  rewrite (average_rating_ok db), (average_rating_ok _ _ Hf1),
    (average_rating_ok _ _ Hf2) by assumption.
  rewrite !field_ratingCount, !field_averageRating.
  rewrite !submit_rating_rows, Hf.
  cbn [no_rating no_date Server.id Server.rating Server.date].
  rewrite Hm, !values_app, !map_app, !COUNT_app.
  cbn [Spec.values rating map rated_date COUNT].
  rewrite List.app_nil_r, !Z.add_0_r.
  unfold Server.submit_rating. rewrite Hf. cbn [snd Server.status Server.res_json].
  repeat split; reflexivity.
Qed.

Lemma submit_rating_missing_field_witness :
  let no_rating := {| Server.id := Some "A"%string; Server.rating := None;
                      Server.date := Some (Examples.march 5) |} in
  let no_date := {| Server.id := Some "A"%string; Server.rating := Some 1;
                    Server.date := None |} in
  Server.average_rating (fst (Server.submit_rating Examples.march_store no_rating)) "A"
    = Spec.aggregate "4.00" 3
  /\ Server.average_rating (fst (Server.submit_rating Examples.march_store no_date)) "A"
    = Spec.aggregate "3.00" 2
  /\ exists n,
       Spec.field "ratingCount"
         (Server.average_rating
            (fst (Server.submit_rating Examples.march_store no_rating)) "A")
       = Some (JS.JNum (inject_Z (n + 1)))
       /\ Spec.field "ratingCount"
         (Server.average_rating
            (fst (Server.submit_rating Examples.march_store no_date)) "A")
       = Some (JS.JNum (inject_Z n)).
Proof.
  split; [vm_compute; reflexivity|]. split; [vm_compute; reflexivity|].
  destruct (submit_rating_missing_field Examples.march_store "A" 1
              (Examples.march 5) eq_refl)
    as [n [_ [_ [H1 [_ [_ H2]]]]]].
  exists n. split; [exact H1|exact H2].
Defined.

End SubmitMore.

(** ** The mood route, again *)
Section MoodMore.
Import SQLite.
Context `{JS.Runtime}.

(** X5. Without the query parameter [mood] the parameter of the statement is
    NULL, no row matches whatever the table holds, and the answer is the 404
    "No cocktails found for this mood"; the recipe API is not asked. *)
Theorem cocktail_by_mood_missing (w : Server.World) (db : Db) :
  fault db = None ->
  Server.cocktail_by_mood w db None
  = Server.res_status_send 404 "No cocktails found for this mood".
Proof.
  intros Hf. unfold Server.cocktail_by_mood, get, select_mood. rewrite Hf.
  assert (Hnone : filter (fun m => sql_eq (Some (Mood m)) None) (Moods db) = []).
  { induction (Moods db) as [|m l IH]; [reflexivity|exact IH]. }
  rewrite Hnone, nth_error_nil. reflexivity.
Qed.

(** X6. With several entries for a mood, the draw decides: the entries that
    some draw resolves to, and whose recipe is then looked up, are exactly
    the entries of the table with that mood. *)
Theorem mood_draws (w : Server.World) (db : Db) (mood : string) (m : MoodEntry) :
  fault db = None ->
  (In m (Moods db) /\ Mood m = mood)
  <-> exists random,
        select_mood (Some mood) random db = Some m
        /\ Server.cocktail_by_mood (with_random w random) db (Some mood)
           = Server.hydrate (with_random w random) (ID m).
Proof.
  intros Hf. split.
  - intros [Hin Hm].
    set (rows := filter (fun m0 => sql_eq (Some (Mood m0)) (Some mood)) (Moods db)).
    assert (Hrow : In m rows).
    { apply filter_In. split; [assumption|]. apply String.eqb_eq. exact Hm. }
    apply In_nth_error in Hrow. destruct Hrow as [i Hi].
    assert (Hsel : select_mood (Some mood) i db = Some m).
    { unfold select_mood. fold rows. rewrite Nat.mod_small; [exact Hi|].
      apply nth_error_Some. congruence. }
    exists i. split; [exact Hsel|].
    unfold Server.cocktail_by_mood, get. rewrite Hf.
    cbn [with_random Server.random]. rewrite Hsel. reflexivity.
  - intros [random [Hsel _]]. eapply select_mood_In. exact Hsel.
Qed.

End MoodMore.

Lemma cocktail_by_mood_missing_witness :
  @Server.cocktail_by_mood Examples.lisbon_summer
     Examples.margarita_world Examples.march_store None
  = Server.res_status_send 404 "No cocktails found for this mood".
Proof.
  apply (@cocktail_by_mood_missing Examples.lisbon_summer).
  reflexivity.
Defined.

Lemma mood_draws_witness :
  (exists random,
      @Server.cocktail_by_mood Examples.lisbon_summer
         (with_random Examples.margarita_world random)
         Scenarios.party_store (Some "happy"%string)
      = @Server.hydrate Examples.lisbon_summer
          (with_random Examples.margarita_world random) "11007")
  /\ (exists random,
      @Server.cocktail_by_mood Examples.lisbon_summer
         (with_random Examples.margarita_world random)
         Scenarios.party_store (Some "happy"%string)
      = @Server.hydrate Examples.lisbon_summer
          (with_random Examples.margarita_world random) "17222").
Proof.
  split.
  - destruct (proj1 (@mood_draws Examples.lisbon_summer Examples.margarita_world
                       Scenarios.party_store "happy"
                       {| SQLite.ID := "11007"; SQLite.Mood := "happy" |} eq_refl))
      as [random [_ Hr]].
    + split; [left; reflexivity|reflexivity].
    + exists random. exact Hr.
  - destruct (proj1 (@mood_draws Examples.lisbon_summer Examples.margarita_world
                       Scenarios.party_store "happy"
                       {| SQLite.ID := "17222"; SQLite.Mood := "happy" |} eq_refl))
      as [random [_ Hr]].
    + split; [right; left; reflexivity|reflexivity].
    + exists random. exact Hr.
Defined.
(** ** The sentinel of the average *)
Section ToFixedMore.

Lemma Qabs_Qabs (x : Q) : Qabs (Qabs x) = Qabs x.
Proof. apply Qabs_nonneg_eq, Qabs_nonneg. Qed.

Lemma toFixed_sign (x : Q) (f : nat) :
  JS.toFixed x f
  = ((if (Qnum x <? 0)%Z then "-" else "") ++ JS.toFixed (Qabs x) f)%string.
Proof.
  unfold JS.toFixed at 2.
  assert (Hn : (Qnum (Qabs x) <? 0) = false).
  { apply Z.ltb_ge. destruct x as [n d]. simpl. apply Z.abs_nonneg. }
  rewrite Hn, Qabs_Qabs. reflexivity.
Qed.

Lemma append_assoc (a b c : string) : ((a ++ b) ++ c = a ++ (b ++ c))%string.
Proof. induction a as [|ch a IH]; simpl; congruence. Qed.

(** Below 10^21, [toFixed(2)] writes a point before the last two
    characters. *)
Lemma toFixed_2_shape (x : Q) :
  Qle_bool (inject_Z (10 ^ 21)) (Qabs x) = false ->
  exists p b : string,
    JS.toFixed x 2 = (p ++ "." ++ b)%string /\ String.length b = 2%nat.
Proof.
  intros Hbig.
  assert (Hlt : (Qabs x < inject_Z (10 ^ 21))%Q).
  { apply Qnot_le_lt. intros Hle. apply Qle_bool_iff in Hle. congruence. }
  destruct (toFixed_2_nonneg (Qabs x) (Qabs_nonneg x) Hlt) as [a [b [H1 [H2 _]]]].
  exists ((if (Qnum x <? 0)%Z then "-" else "") ++ a)%string, b.
  split; [|exact H2].
  rewrite toFixed_sign, H1, append_assoc. reflexivity.
Qed.

Lemma get_point (p b : string) :
  String.get (String.length p) (p ++ "." ++ b) = Some "."%char.
Proof. induction p as [|c p IH]; [reflexivity|exact IH]. Qed.

Lemma toFixed_2_not_sentinel (x : Q) :
  Qle_bool (inject_Z (10 ^ 21)) (Qabs x) = false ->
  JS.toFixed x 2 <> "Not rated"%string.
Proof.
  intros Hbig.
  destruct (toFixed_2_shape x Hbig) as [p [b [H1 H2]]].
  intros E. rewrite E in H1.
  pose proof (get_point p b) as Hg. rewrite <- H1 in Hg.
  apply (f_equal String.length) in H1.
  rewrite !length_append in H1. simpl in H1. rewrite H2 in H1.
  assert (Hp : String.length p = 6%nat) by lia.
  rewrite Hp in Hg. discriminate Hg.
Qed.

End ToFixedMore.

Section AverageMore.
Import SQLite.

Lemma COUNT_le_length {A : Type} (column : list (option A)) :
  0 <= COUNT column <= Z.of_nat (List.length column).
Proof.
  induction column as [|[a|] column IH]; cbn [COUNT List.length]; lia.
Qed.

(** X7. Whatever the rows hold (NULL ratings, NULL dates, integers of
    either sign whose absolute values sum to less than 2^53), a request that
    the database serves is answered with an averageRating that is "Not rated"
    exactly when the ratings of the id that are not NULL sum to zero (as when
    there is none), and otherwise the mean in binary64 written by
    [toFixed(2)], which is never the text "Not rated"; the count lies between
    0 and the number of rows of the id. *)
Theorem average_rating_sentinel (db : Db) (cocktailId : string) :
  fault db = None ->
  Spec.exact (Spec.values (Spec.rows_of cocktailId db)) ->
  let vs := Spec.values (Spec.rows_of cocktailId db) in
  exists s n,
    Server.average_rating db cocktailId = Spec.aggregate s n
    /\ 0 <= n <= Z.of_nat (List.length (Spec.rows_of cocktailId db))
    /\ (s = "Not rated"%string <-> Spec.sum vs = 0)
    /\ (Spec.sum vs <> 0 -> s = JS.toFixed (Spec.mean64 vs) 2).
Proof.
  intros Hf Hex vs. subst vs.
  pose proof (mean64_digits _ (exact_sum _ Hex)) as Hbig.
  rewrite average_rating_ok by assumption.
  eexists. eexists. split; [reflexivity|]. split.
  - pose proof (COUNT_le_length (map rated_date (Spec.rows_of cocktailId db))) as Hc.
    rewrite length_map in Hc. exact Hc.
  - destruct (Spec.values (Spec.rows_of cocktailId db)) as [|v vs] eqn:E.
    + split; [split; reflexivity|]. intros Hs. exfalso. apply Hs. reflexivity.
    + destruct (Spec.sum (v :: vs) =? 0) eqn:Es.
      * apply Z.eqb_eq in Es. split; [split; [intros _; exact Es|reflexivity]|].
        intros Hs. contradiction.
      * apply Z.eqb_neq in Es. split; [|reflexivity]. split.
        -- intros Hc. exfalso. exact (toFixed_2_not_sentinel _ Hbig Hc).
        -- intros Hs. contradiction.
Qed.

End AverageMore.

Lemma average_rating_sentinel_witness :
  exists n,
    Server.average_rating Examples.zero_store "A" = Spec.aggregate "Not rated" n
    /\ 0 <= n <= 2.
Proof.
  destruct (average_rating_sentinel Examples.zero_store "A" eq_refl)
    as [s [n [H1 [H2 [H3 _]]]]]; [vm_compute; reflexivity|].
  exists n. split; [|exact H2].
  rewrite <- (proj2 H3 eq_refl). exact H1.
Defined.

(** ** Statements that the engine refuses *)
Section Faults.
Import SQLite.
Context `{JS.Runtime}.

(** X8. A statement that the engine refuses ends every route with status
    500 and the message of the route: nothing is stored and the recipe API is
    not asked.  The two routes that only use the database answer 500 in no
    other case. *)
Theorem storage_fault (w : Server.World) (db : Db) :
  (forall cocktailId,
      Server.status (Server.average_rating db cocktailId) = 500 <-> fault db <> None)
  /\ (forall b,
      Server.status (snd (Server.submit_rating db b)) = 500 <-> fault db <> None)
  /\ (fault db <> None ->
      (forall b, fst (Server.submit_rating db b) = db)
      /\ (forall mood,
           Server.cocktail_by_mood w db mood
           = Server.res_status_send 500 "Error fetching from the database")
      /\ Server.top_rated_cocktail w db
         = Server.res_status_send 500
             "Error fetching the top-rated cocktail for the current month"
      /\ Server.top_rated_cocktail_week w db
         = Server.res_status_send 500
             "Error fetching the top-rated cocktail for the current week").
Proof.
  unfold Server.average_rating, Server.submit_rating, Server.cocktail_by_mood,
    Server.top_rated_cocktail, Server.top_rated_cocktail_week, get.
  destruct (fault db) as [e|].
  - repeat split; try reflexivity; try discriminate.
  - repeat split; try discriminate; try congruence; intros Hc; exfalso; apply Hc; reflexivity.
Qed.

End Faults.

(** ** The weekly statement *)
Section WeekMore.
Import SQLite.
Context `{JS.Runtime}.

Lemma setDate_shift (d k : Z) :
  JS.setDate d (JS.getDate d + k) = d + k * JS.msPerDay.
Proof.
  pose proof (LocalTime_setDate d k) as Hl.
  revert Hl. generalize (JS.setDate d (JS.getDate d + k)). intros s Hl.
  unfold JS.LocalTime in Hl. lia.
Qed.

Lemma firstDayOfWeek_shift (now : Z) :
  Server.firstDayOfWeek now
  = now + (- JS.getDay now + (if JS.getDay now =? 0 then -6 else 1)) * JS.msPerDay.
Proof.
  unfold Server.firstDayOfWeek. rewrite <- setDate_shift. f_equal. lia.
Qed.

Lemma lastDayOfWeek_shift (now : Z) :
  Server.lastDayOfWeek now = Server.firstDayOfWeek now + 6 * JS.msPerDay.
Proof. unfold Server.lastDayOfWeek. apply setDate_shift. Qed.


Lemma between_dated_within (lo hi : Z) (r : Rating) :
  between lo hi r = valid_day lo && valid_day hi && Week.dated_within lo hi r.
Proof.
  unfold between, Week.dated_within, date.
  destruct (rated_date r) as [d|];
    destruct (valid_day lo), (valid_day hi); reflexivity.
Qed.

(** X10. GET /top-rated-cocktail-week: the cocktail whose recipe is looked
    up has a rating dated within the two days bound to the statement, its
    average is taken over its rows dated within them, and no cocktail with
    such a row has a greater average; when the statement returns no row the
    answer is the 404 "No top-rated cocktails found for the current week",
    and then no row is dated within the two days. *)
Theorem top_rated_week (w : Server.World) (db : Db) :
  fault db = None ->
  let first := JS.toISODate (Server.firstDayOfWeek (Server.now w)) in
  let last := JS.toISODate (Server.lastDayOfWeek (Server.now w)) in
  let rows := CocktailRatings db in
  match select_top_week first last db with
  | Some row =>
      Server.top_rated_cocktail_week w db
        = Server.hydrate w (Server.template (top_cocktail_id row))
      /\ (exists r, In r rows /\ cocktail_id r = top_cocktail_id row
                    /\ Week.dated_within first last r = true)
      /\ top_avgRating row
         = AVG (map rating (Week.rows_within first last (top_cocktail_id row) rows))
      /\ forall r, In r rows -> Week.dated_within first last r = true ->
           sql_lt (top_avgRating row)
                  (AVG (map rating (Week.rows_within first last (cocktail_id r) rows)))
           = false
  | None =>
      Server.top_rated_cocktail_week w db
        = Server.res_status_send 404
            "No top-rated cocktails found for the current week"
      /\ (valid_day first = true -> valid_day last = true ->
          forall r, In r rows -> Week.dated_within first last r = false)
  end.
Proof.
  intros Hf first last rows.
  unfold Server.top_rated_cocktail_week, get. rewrite Hf. fold first last.
  destruct (select_top_week first last db) as [row|] eqn:Esel.
  - unfold select_top_week in Esel. fold rows in Esel.
    apply order_desc_limit_1_max in Esel. destruct Esel as [Hin Hmax].
    apply grouped_avg_In in Hin. destruct Hin as [[r [Hr Hk]] Havg].
    apply filter_In in Hr. destruct Hr as [Hr Hb].
    rewrite between_dated_within in Hb.
    apply andb_prop in Hb. destruct Hb as [Hv Hd].
    assert (Hext : forall k,
               group_rows k (filter (between first last) rows)
               = Week.rows_within first last k rows).
    { intros k. rewrite group_rows_filter. unfold Week.rows_within.
      apply filter_ext. intros r0. rewrite between_dated_within, Hv. reflexivity. }
    split; [reflexivity|]. split; [|split].
    + exists r. repeat split; assumption.
    + rewrite Havg, Hext. reflexivity.
    + intros r' Hr' Hd'. rewrite <- Hext.
      apply (Hmax {| top_cocktail_id := cocktail_id r';
                     top_avgRating :=
                       AVG (map rating
                              (group_rows (cocktail_id r')
                                 (filter (between first last) rows))) |}).
      apply grouped_avg_In. cbn [top_cocktail_id top_avgRating].
      split; [|reflexivity]. exists r'. split; [|reflexivity].
      apply filter_In. split; [assumption|].
      rewrite between_dated_within, Hv. exact Hd'.
  - split; [reflexivity|].
    intros Hv1 Hv2 r Hr.
    destruct (Week.dated_within first last r) eqn:E; [exfalso|reflexivity].
    unfold select_top_week in Esel. fold rows in Esel.
    apply order_desc_limit_1_nil in Esel.
    assert (Hin : In {| top_cocktail_id := cocktail_id r;
                        top_avgRating :=
                          AVG (map rating
                                 (group_rows (cocktail_id r)
                                    (filter (between first last) rows))) |}
                     (grouped_avg (filter (between first last) rows))).
    { apply grouped_avg_In. cbn [top_cocktail_id top_avgRating].
      split; [|reflexivity]. exists r. split; [|reflexivity].
      apply filter_In. split; [assumption|].
      rewrite between_dated_within, Hv1, Hv2. exact E. }
    rewrite Esel in Hin. exact Hin.
Qed.

End WeekMore.


Lemma top_rated_week_witness :
  @Server.top_rated_cocktail_week Examples.lisbon_summer
     Examples.margarita_world Examples.march_store
  = @Server.hydrate Examples.lisbon_summer Examples.margarita_world "B"
  /\ exists r, In r Examples.march_ratings
               /\ SQLite.cocktail_id r = Some "B"%string
               /\ Week.dated_within (Examples.march (-3)) (Examples.march 3) r = true.
Proof.
  pose proof (@top_rated_week Examples.lisbon_summer
                Examples.margarita_world Examples.march_store eq_refl) as Ht.
  cbv zeta in Ht.
  destruct (SQLite.select_top_week _ _ Examples.march_store) as [row|] eqn:E;
    vm_compute in E; [|discriminate E].
  injection E as <-.
  destruct Ht as [H1 [H2 _]].
  split; [exact H1|exact H2].
Defined.

(** ** Ratings without an id, and ratings of today *)
Section Fresh.
Import SQLite.
Context `{JS.Runtime}.

Lemma select_top_some (f : Rating -> bool) (rows : list Rating) (r : Rating) :
  In r rows -> f r = true ->
  exists row, order_desc_limit_1 (grouped_avg (filter f rows)) = Some row.
Proof.
  intros Hin Hf.
  destruct (order_desc_limit_1 (grouped_avg (filter f rows))) as [row|] eqn:E.
  - exists row. reflexivity.
  - exfalso. apply order_desc_limit_1_nil in E.
    assert (Hg : In {| top_cocktail_id := cocktail_id r;
                       top_avgRating :=
                         AVG (map rating (group_rows (cocktail_id r) (filter f rows))) |}
                    (grouped_avg (filter f rows))).
    { apply grouped_avg_In. cbn [top_cocktail_id top_avgRating].
      split; [|reflexivity]. exists r. split; [|reflexivity].
      apply filter_In. split; assumption. }
    rewrite E in Hg. exact Hg.
Qed.

(** X11. Rows without a cocktail id form a group like any other: when the
    ratings of the current month all lack the id, GET /top-rated-cocktail
    answers with the lookup of the recipe "null" at the API, not with the
    404 of a month without ratings. *)
Theorem top_rated_without_id (w : Server.World) (db : Db) :
  fault db = None ->
  1000 <= Server.currentYear w <= 9999 ->
  (exists r, In r (CocktailRatings db)
             /\ Spec.in_period (Server.currentYear w) (Server.currentMonth w) r = true) ->
  (forall r, In r (CocktailRatings db) ->
             Spec.in_period (Server.currentYear w) (Server.currentMonth w) r = true ->
             cocktail_id r = None) ->
  Server.top_rated_cocktail w db = Server.hydrate w "null".
Proof.
  intros Hf Hy [r [Hr Hp]] Hnone.
  pose proof (currentMonth_range w) as Hm.
  unfold Server.top_rated_cocktail, get, select_top_month. rewrite Hf.
  destruct (select_top_some _ _ r Hr (in_month_complete _ _ _ Hy Hp)) as [row Hrow].
  rewrite Hrow.
  apply order_desc_limit_1_max in Hrow. destruct Hrow as [Hin _].
  apply grouped_avg_In in Hin. destruct Hin as [[r' [Hr' Hk]] _].
  apply filter_In in Hr'. destruct Hr' as [Hr' Hm'].
  apply in_month_sound in Hm'; [|lia].
  rewrite <- Hk, (Hnone r' Hr' Hm'). reflexivity.
Qed.

(** X12. A rating stamped, as the page does, with the UTC day of the clock
    is within the week of the weekly route whatever the zone of the server:
    right after the submission the route finds a top-rated cocktail and looks
    its recipe up.  The monthly route finds one when the UTC day is also the
    local day of the server and the year has four digits. *)
Theorem fresh_rating_is_counted (w : Server.World) (db : Db)
  (cocktailId : string) (v : Z) :
  fault db = None ->
  let today := JS.toISODate (Server.now w) in
  let after := fst (Server.submit_rating db (Spec.submission cocktailId v today)) in
  (valid_day (JS.toISODate (Server.firstDayOfWeek (Server.now w))) = true ->
   valid_day (JS.toISODate (Server.lastDayOfWeek (Server.now w))) = true ->
   exists row,
     Server.top_rated_cocktail_week w after
     = Server.hydrate w (Server.template (top_cocktail_id row)))
  /\ (JS.Day (Server.now w) = JS.Day (JS.LocalTime (Server.now w)) ->
      1000 <= Server.currentYear w <= 9999 ->
      exists row,
        Server.top_rated_cocktail w after
        = Server.hydrate w (Server.template (top_cocktail_id row))).
Proof.
  intros Hf today after.
  set (r := {| cocktail_id := Some cocktailId; rating := Some v;
               rated_date := Some today |}).
  assert (Hafter : after = insert_rating r db).
  { subst after. unfold Server.submit_rating. rewrite Hf. reflexivity. }
  assert (Hfa : fault after = None) by (rewrite Hafter; exact Hf).
  assert (Hin : In r (CocktailRatings after)).
  { rewrite Hafter. cbn [insert_rating CocktailRatings].
    apply in_or_app. right. left. reflexivity. }
  split.
  - intros Hv1 Hv2.
    assert (Hb : between (JS.toISODate (Server.firstDayOfWeek (Server.now w)))
                         (JS.toISODate (Server.lastDayOfWeek (Server.now w))) r = true).
    { rewrite between_dated_within, Hv1, Hv2. cbn [andb].
      unfold Week.dated_within. cbn [r rated_date]. subst today.
      unfold JS.toISODate.
      rewrite lastDayOfWeek_shift, firstDayOfWeek_shift, !Day_shift.
      pose proof (WeekDay_range (JS.LocalTime (Server.now w))) as Hr.
      fold (JS.getDay (Server.now w)) in Hr.
      apply andb_true_intro.
      destruct (JS.getDay (Server.now w) =? 0) eqn:E;
        [apply Z.eqb_eq in E|apply Z.eqb_neq in E];
        split; apply Z.leb_le; lia. }
    destruct (select_top_some _ _ r Hin Hb) as [row Hrow].
    exists row.
    unfold Server.top_rated_cocktail_week, get, select_top_week.
    rewrite Hfa, Hrow. reflexivity.
  - intros Hday Hy.
    assert (Hp : Spec.in_period (Server.currentYear w) (Server.currentMonth w) r = true).
    { unfold Spec.in_period. cbn [r rated_date]. subst today.
      unfold Server.currentYear, Server.currentMonth, JS.getFullYear, JS.getMonth,
        JS.YearFromTime, JS.MonthFromTime, JS.toISODate.
      rewrite <- Hday. apply andb_true_intro. split; apply Z.eqb_refl. }
    destruct (select_top_some _ _ r Hin (in_month_complete _ _ _ Hy Hp)) as [row Hrow].
    exists row.
    unfold Server.top_rated_cocktail, get, select_top_month.
    rewrite Hfa, Hrow. reflexivity.
Qed.

End Fresh.


Lemma top_rated_without_id_witness :
  @Server.top_rated_cocktail Examples.lisbon_summer
     Examples.margarita_world Scenarios.anonymous_store
  = @Server.hydrate Examples.lisbon_summer Examples.margarita_world "null".
Proof.
  apply (@top_rated_without_id Examples.lisbon_summer).
  - reflexivity.
  - vm_compute. split; discriminate.
  - eexists. split; [left; reflexivity|vm_compute; reflexivity].
  - intros r [ <- | [ <- | [] ] ] Hp; [reflexivity|vm_compute in Hp; discriminate Hp].
Defined.

Lemma fresh_rating_is_counted_witness :
  let today := JS.toISODate (Server.now Examples.margarita_world) in
  let after :=
    fst (Server.submit_rating Examples.empty_store (Spec.submission "A" 5 today)) in
  (exists row,
      @Server.top_rated_cocktail_week Examples.lisbon_summer
         Examples.margarita_world after
      = @Server.hydrate Examples.lisbon_summer Examples.margarita_world
          (Server.template (SQLite.top_cocktail_id row)))
  /\ (exists row,
      @Server.top_rated_cocktail Examples.lisbon_summer
         Examples.margarita_world after
      = @Server.hydrate Examples.lisbon_summer Examples.margarita_world
          (Server.template (SQLite.top_cocktail_id row))).
Proof.
  destruct (@fresh_rating_is_counted Examples.lisbon_summer
              Examples.margarita_world Examples.empty_store "A" 5 eq_refl)
    as [Hweek Hmonth].
  split.
  - apply Hweek; vm_compute; reflexivity.
  - apply Hmonth; [vm_compute; reflexivity|vm_compute; split; discriminate].
Defined.

(** ** The pages *)
Section Pages.
Context `{Client.Browser}.
Import SQLite.

Lemma template_count (n : Z) :
  0 <= n < 10 ^ 21 ->
  Client.template (Some (JS.JNum (inject_Z n))) = JS.digits n.
Proof.
  intros Hn. unfold Client.template.
  rewrite Qcanon.Qred_identity by (apply Z.gcd_1_r).
  cbn [inject_Z Qnum Qden].
  rewrite Z.eqb_refl, Z.abs_eq by lia.
  destruct (Z.ltb_spec n (10 ^ 21)) as [_|Hge]; [|lia].
  cbn [andb]. unfold JS.toString.
  destruct (Z.ltb_spec n 0) as [Hlt|_]; [lia|reflexivity].
Qed.

(** The answer of the route, as the pages read it. *)
Lemma average_rating_read (db : Db) (cocktailId : string) :
  Client.response_json (Server.average_rating db cocktailId)
  = JS.Fulfilled
      (match fault db with
       | Some _ => JS.JObj [("error"%string, JS.JStr "Error fetching average rating")]
       | None =>
           let vs := Spec.values (Spec.rows_of cocktailId db) in
           JS.JObj
             [("averageRating"%string,
               JS.JStr (if Spec.sum vs =? 0 then "Not rated"
                        else JS.toFixed (Spec.mean64 vs) 2));
              ("ratingCount"%string,
               JS.JNum (inject_Z (COUNT (map rated_date (Spec.rows_of cocktailId db)))))]
       end).
Proof.
  destruct (fault db) as [e|] eqn:Hf.
  - unfold Server.average_rating, get. rewrite Hf. reflexivity.
  - rewrite average_rating_ok by assumption.
    destruct (Spec.values (Spec.rows_of cocktailId db)) as [|v vs]; reflexivity.
Qed.

Lemma differs_toFixed (x : Q) :
  Qle_bool (inject_Z (10 ^ 21)) (Qabs x) = false ->
  Client.differs (Some (JS.JStr (JS.toFixed x 2))) "Not rated" = true.
Proof.
  intros Hbig. unfold Client.differs.
  destruct (String.eqb_spec (JS.toFixed x 2) "Not rated") as [E|_]; [|reflexivity].
  exfalso. exact (toFixed_2_not_sentinel x Hbig E).
Qed.

(** X13. [home.js] and the start page, for an id of letters and digits, a
    request that gets through and ratings whose absolute values sum to less
    than 2^53: the line about the rating is "Not yet rated" both when the
    server answers "Not rated" and when the database refuses the statement
    (the answer with [error] is replaced by the fallback object); otherwise
    it is "Average Rating: " with the mean in two decimal places and the
    count, which is written in decimal digits. *)
Theorem home_rating_line_cases (db : Db) (id : string) :
  Client.plain_segment id = true ->
  Spec.exact (Spec.values (Spec.rows_of id db)) ->
  let vs := Spec.values (Spec.rows_of id db) in
  let n := COUNT (map rated_date (Spec.rows_of id db)) in
  Client.home_rating_line db id
  = Some (match fault db with
          | Some _ => "Not yet rated"
          | None =>
              if (Spec.sum vs =? 0)%Z then "Not yet rated"
              else "Average Rating: " ++ JS.toFixed (Spec.mean64 vs) 2
                   ++ " (" ++ Client.template (Some (JS.JNum (inject_Z n)))
                   ++ " ratings)"
          end)%string
  /\ (n < 10 ^ 21 -> Client.template (Some (JS.JNum (inject_Z n))) = JS.digits n).
Proof.
  intros Hid Hex vs n. split.
  - unfold Client.home_rating_line, Client.average_request. rewrite Hid.
    cbn [option_map]. f_equal.
    unfold Client.fetchAverageRating.
    cbn [JS.then_]. rewrite average_rating_read.
    destruct (fault db) as [e|]; [reflexivity|].
    cbv zeta. fold vs. fold n.
    destruct (Spec.sum vs =? 0); [reflexivity|].
    cbn [JS.then_ JS.catch_ JS.truthy JS.member JS.assoc negb orb String.eqb Ascii.eqb Bool.eqb].
    unfold Client.ratingText.
    cbn [JS.member JS.assoc String.eqb Ascii.eqb Bool.eqb].
    rewrite differs_toFixed by (apply mean64_digits, exact_sum; exact Hex).
    reflexivity.
  - intros Hn. apply template_count. split; [|exact Hn].
    apply (COUNT_le_length (map rated_date (Spec.rows_of id db))).
Qed.

(** X14. [cocktail-info.js], for an id of letters and digits, a request that
    gets through and ratings whose absolute values sum to less than 2^53:
    the page does not look at [error], so the paragraph reads "Rating:
    undefined/5 (Rated undefined times)" when the database refuses the
    statement; it is "Not rated" when the ratings sum to zero, and otherwise
    "Rating: " with the mean in two decimal places and the count. *)
Theorem info_rating_line_cases (db : Db) (id : string) :
  Client.plain_segment id = true ->
  Spec.exact (Spec.values (Spec.rows_of id db)) ->
  let vs := Spec.values (Spec.rows_of id db) in
  let n := COUNT (map rated_date (Spec.rows_of id db)) in
  Client.info_rating_line db id
  = Some (Some (match fault db with
                | Some _ => "Rating: undefined/5 (Rated undefined times)"
                | None =>
                    if (Spec.sum vs =? 0)%Z then "Not rated"
                    else "Rating: " ++ JS.toFixed (Spec.mean64 vs) 2
                         ++ "/5 (Rated "
                         ++ Client.template (Some (JS.JNum (inject_Z n)))
                         ++ " times)"
                end))%string.
Proof.
  intros Hid Hex vs n.
  unfold Client.info_rating_line, Client.average_request. rewrite Hid.
  cbn [option_map]. f_equal.
  unfold Client.info_rating.
  cbn [JS.then_]. rewrite average_rating_read.
  destruct (fault db) as [e|]; [reflexivity|].
  cbv zeta. fold vs. fold n.
  destruct (Spec.sum vs =? 0); [reflexivity|].
  cbn [JS.then_ JS.catch_ JS.member JS.assoc String.eqb Ascii.eqb Bool.eqb].
  rewrite differs_toFixed by (apply mean64_digits, exact_sum; exact Hex).
  reflexivity.
Qed.

Lemma includes_In (rated : list (option string)) (k : option string) :
  Client.includes rated k = true <-> In k rated.
Proof.
  unfold Client.includes. rewrite existsb_exists. split.
  - intros [x [Hx Hk]]. apply same_key_eq in Hk. subst. exact Hx.
  - intros Hk. exists k. split; [exact Hk|]. apply same_key_eq. reflexivity.
Qed.

(** One click: what it adds to the list of the session and to the table. *)
Lemma submitCocktailRating_step (c : Client.Click) (rated : list (option string))
  (db : Db) :
  exists (added : list Rating) (listed : list (option string)),
    Client.submitCocktailRating c rated db
    = (rated ++ listed,
       {| CocktailRatings := CocktailRatings db ++ added;
          Moods := Moods db; fault := fault db |})
    /\ ((added = [] /\ listed = [])
        \/ (exists v, Client.checked c = Some v
              /\ added = [{| cocktail_id := Client.cocktailId c;
                             rating := Some v;
                             rated_date := Some (Client.today c) |}])
           /\ ~ In (Client.cocktailId c) rated
           /\ Client.sent c = true
           /\ listed = (if Client.answered c then [Client.cocktailId c] else [])).
Proof.
  unfold Client.submitCocktailRating.
  destruct (Client.checked c) as [v|] eqn:Hc.
  2:{ exists [], []. rewrite !List.app_nil_r.
      destruct db; split; [reflexivity|left; split; reflexivity]. }
  destruct (Client.includes rated (Client.cocktailId c)) eqn:Hi.
  { exists [], []. rewrite !List.app_nil_r.
    destruct db; split; [reflexivity|left; split; reflexivity]. }
  destruct (Client.sent c) eqn:Hr; cbn [negb].
  2:{ exists [], []. rewrite !List.app_nil_r.
      destruct db; split; [reflexivity|left; split; reflexivity]. }
  unfold Server.submit_rating.
  destruct (fault db) as [e|] eqn:Hf.
  { exists [], []. rewrite !List.app_nil_r.
    destruct db as [rs ms f]. cbn in Hf. subst f.
    split; [destruct (Client.answered c); reflexivity|left; split; reflexivity]. }
  exists [{| cocktail_id := Client.cocktailId c; rating := Some v;
             rated_date := Some (Client.today c) |}],
         (if Client.answered c then [Client.cocktailId c] else []).
  split.
  - unfold insert_rating. rewrite Hf.
    destruct (Client.answered c); [reflexivity|].
    cbn [JS.then_ JS.catch_]. rewrite List.app_nil_r. reflexivity.
  - right. split; [exists v; split; reflexivity|].
    split; [|split; reflexivity].
    intros Hin. apply includes_In in Hin. congruence.
Qed.

Lemma includes_app (rated : list (option string)) (k k' : option string) :
  Client.includes (rated ++ [k']) k = Client.includes rated k || same_key k' k.
Proof.
  unfold Client.includes. rewrite existsb_app. cbn [existsb].
  rewrite orb_false_r. reflexivity.
Qed.

(** X15. The guard of [submitCocktailRating] over the clicks of one session
    (any ids, stars and days, requests and answers lost or refused), each
    handled to its end before the next.  The list kept in the session
    storage names no cocktail twice, and only cocktails of rows that the
    session added to the table; the rows added for a cocktail are at most
    one more than the clicks for it whose request reached the server and
    whose answer was lost; each added row carries the id, the star and the
    day of a click that reached the server.  When no answer is lost, the
    list names exactly the cocktails of the added rows, in their order.  The
    table Moods and the earlier rows are untouched. *)
Theorem rated_once_per_session (cs : list Client.Click) (db : Db) :
  exists (added : list Rating) (listed : list (option string)),
    Client.clicks cs [] db
    = (listed,
       {| CocktailRatings := CocktailRatings db ++ added;
          Moods := Moods db; fault := fault db |})
    /\ NoDup listed
    /\ incl listed (map cocktail_id added)
    /\ (forall k,
          (List.length (group_rows k added)
           <= 1 + List.length (Client.lost k cs))%nat)
    /\ Forall (fun r =>
         exists c, In c cs /\ Client.sent c = true
           /\ cocktail_id r = Client.cocktailId c
           /\ rating r = Client.checked c /\ rating r <> None
           /\ rated_date r = Some (Client.today c)) added
    /\ (Forall (fun c => Client.answered c = true) cs ->
        listed = map cocktail_id added).
Proof.
  assert (G : forall cs rated db, NoDup rated ->
    exists (added : list Rating) (listed : list (option string)),
      Client.clicks cs rated db
      = (rated ++ listed,
         {| CocktailRatings := CocktailRatings db ++ added;
            Moods := Moods db; fault := fault db |})
      /\ NoDup (rated ++ listed)
      /\ incl listed (map cocktail_id added)
      /\ (forall k,
            (List.length (group_rows k added)
             <= (if Client.includes rated k then 0 else 1)
                + List.length (Client.lost k cs))%nat)
      /\ Forall (fun r =>
           exists c, In c cs /\ Client.sent c = true
             /\ cocktail_id r = Client.cocktailId c
             /\ rating r = Client.checked c /\ rating r <> None
             /\ rated_date r = Some (Client.today c)) added
      /\ (Forall (fun c => Client.answered c = true) cs ->
          listed = map cocktail_id added)).
  { clear cs db. induction cs as [|c cs IH]; intros rated db Hnd.
    - exists [], []. cbn [Client.clicks map]. rewrite !List.app_nil_r.
      split; [destruct db; reflexivity|].
      split; [exact Hnd|]. split; [intros x []|].
      split; [intros k; cbn; lia|]. split; [constructor|reflexivity].
    - cbn [Client.clicks].
      destruct (submitCocktailRating_step c rated db) as [a1 [l1 [E1 Ha1]]].
      rewrite E1.
      assert (Hlost : forall k,
                 (List.length (Client.lost k cs)
                  <= List.length (Client.lost k (c :: cs)))%nat).
      { intros k. unfold Client.lost. cbn [filter].
        break_if; cbn [List.length]; lia. }
      destruct Ha1 as [[-> ->]|[[v [Hv ->]] [Hnin [Hs ->]]]].
      + rewrite List.app_nil_r.
        destruct (IH rated
                    {| CocktailRatings := CocktailRatings db ++ [];
                       Moods := Moods db; fault := fault db |} Hnd)
          as [a2 [l2 [E2 [Hnd2 [Hincl [Hcount [Hall Hans]]]]]]].
        exists a2, l2. rewrite E2. cbn [CocktailRatings Moods fault].
        rewrite List.app_nil_r.
        split; [reflexivity|]. split; [exact Hnd2|]. split; [exact Hincl|].
        split; [intros k; specialize (Hcount k); specialize (Hlost k); lia|].
        split.
        * eapply Forall_impl; [|exact Hall].
          intros r [c' [Hin Hrest]]. exists c'. split; [right; exact Hin|exact Hrest].
        * intros Hfa. apply Hans. inversion Hfa; assumption.
      + set (r := {| cocktail_id := Client.cocktailId c; rating := Some v;
                     rated_date := Some (Client.today c) |}) in *.
        assert (Hprov : exists c0, In c0 (c :: cs) /\ Client.sent c0 = true
                          /\ cocktail_id r = Client.cocktailId c0
                          /\ rating r = Client.checked c0 /\ rating r <> None
                          /\ rated_date r = Some (Client.today c0)).
        { exists c. cbn [r cocktail_id rating rated_date].
          repeat split; auto; [left; reflexivity|congruence]. }
        assert (Hni : Client.includes rated (Client.cocktailId c) = false).
        { destruct (Client.includes rated (Client.cocktailId c)) eqn:Ei;
            [|reflexivity]. apply includes_In in Ei. contradiction. }
        destruct (Client.answered c) eqn:Ea.
        * assert (Hnd1 : NoDup (rated ++ [Client.cocktailId c])).
          { apply NoDup_app; [exact Hnd|repeat constructor; intros []|].
            intros x Hx [<-|[]]. exact (Hnin Hx). }
          destruct (IH (rated ++ [Client.cocktailId c])
                      {| CocktailRatings := CocktailRatings db ++ [r];
                         Moods := Moods db; fault := fault db |} Hnd1)
            as [a2 [l2 [E2 [Hnd2 [Hincl [Hcount [Hall Hans]]]]]]].
          exists (r :: a2), (Client.cocktailId c :: l2).
          rewrite E2. cbn [CocktailRatings Moods fault].
          rewrite <- !List.app_assoc. cbn [app].
          split; [reflexivity|].
          split; [rewrite <- List.app_assoc in Hnd2; exact Hnd2|].
          split.
          { intros x [<-|Hx]; [left; reflexivity|right; apply Hincl; exact Hx]. }
          split.
          { intros k. specialize (Hcount k). rewrite includes_app in Hcount.
            unfold group_rows in *. cbn [filter cocktail_id r].
            unfold Client.lost in *. cbn [filter]. rewrite Hs, Ea.
            rewrite andb_false_r.
            destruct (same_key (Client.cocktailId c) k) eqn:Ek.
            - apply same_key_eq in Ek. subst k. rewrite Hni in *.
              cbn [orb List.length] in *. lia.
            - rewrite orb_false_r in Hcount. exact Hcount. }
          split.
          { constructor; [exact Hprov|].
            eapply Forall_impl; [|exact Hall].
            intros r' [c' [Hin Hrest]]. exists c'.
            split; [right; exact Hin|exact Hrest]. }
          intros Hfa. cbn [map cocktail_id r]. f_equal.
          apply Hans. inversion Hfa; assumption.
        * rewrite List.app_nil_r.
          destruct (IH rated
                      {| CocktailRatings := CocktailRatings db ++ [r];
                         Moods := Moods db; fault := fault db |} Hnd)
            as [a2 [l2 [E2 [Hnd2 [Hincl [Hcount [Hall Hans]]]]]]].
          exists (r :: a2), l2.
          rewrite E2. cbn [CocktailRatings Moods fault].
          rewrite <- !List.app_assoc. cbn [app].
          split; [reflexivity|]. split; [exact Hnd2|].
          split; [intros x Hx; right; apply Hincl; exact Hx|].
          split.
          { intros k. specialize (Hcount k).
            unfold group_rows in *. cbn [filter cocktail_id r].
            unfold Client.lost in *. cbn [filter]. rewrite Hs, Ea.
            cbn [negb]. rewrite !andb_true_r.
            destruct (same_key (Client.cocktailId c) k); cbn [List.length]; lia. }
          split.
          { constructor; [exact Hprov|].
            eapply Forall_impl; [|exact Hall].
            intros r' [c' [Hin Hrest]]. exists c'.
            split; [right; exact Hin|exact Hrest]. }
          intros Hfa. inversion Hfa as [|? ? Hc0 ?]. congruence. }
  destruct (G cs [] db (NoDup_nil _)) as [added [listed HG]].
  exists added, listed. exact HG.
Qed.

(** The answers of the monthly route: a value sent by [res.json], or a
    message that is no JSON text. *)
Lemma top_rated_cocktail_shape `{JS.Runtime} (w : Server.World) (db : Db) :
  (exists v, Server.top_rated_cocktail w db = Server.res_json v)
  \/ (exists code c rest,
        Server.top_rated_cocktail w db = Server.res_status_send code (String c rest)
        /\ code <> 200 /\ Client.begins_json c = false).
Proof.
  unfold Server.top_rated_cocktail, get.
  destruct (fault db);
    [right; do 3 eexists; split; [reflexivity|split; [discriminate|reflexivity]]|].
  destruct (select_top_month _ _ db) as [row|];
    [|right; do 3 eexists; split; [reflexivity|split; [discriminate|reflexivity]]].
  rewrite hydrate_cases.
  destruct (Spec.upstream_data w _) as [data|e];
    [|right; do 3 eexists; split; [reflexivity|split; [discriminate|reflexivity]]].
  destruct data;
    try (right; do 3 eexists; split; [reflexivity|split; [discriminate|reflexivity]]);
    break_member d Ed;
    try (right; do 3 eexists; split; [reflexivity|split; [discriminate|reflexivity]]);
    break_if;
    try (right; do 3 eexists; split; [reflexivity|split; [discriminate|reflexivity]]);
    left; eexists; reflexivity.
Qed.

(** X16. The cocktail of the day of [home.js], when the request reaches the
    server: an answer that is not a 200 is shown as the failure message and
    is not kept; a drink that is displayed was sent by the server with
    status 200, and every later load of the session displays that drink,
    whatever the server would answer then. *)
Theorem cocktail_of_the_day_session `{JS.Runtime} (w : Server.World) (db : Db) :
  let answer := Server.top_rated_cocktail w db in
  let first := Client.load_cocktail_of_the_day None (JS.Fulfilled answer) in
  (Server.status answer <> 200 -> first = (None, Client.FailedToLoad))
  /\ (forall drink, snd first = Client.Displays drink ->
        Server.status answer = 200
        /\ Server.body answer = Server.Json (Some drink)
        /\ forall later : JS.promise Server.Response,
             Client.load_cocktail_of_the_day (fst first) later
             = (Some drink, Client.Displays drink)).
Proof.
  intros answer first. subst first answer.
  destruct (top_rated_cocktail_shape w db) as [[v E]|[code [c [rest [E [Hc Hb]]]]]];
    rewrite E.
  - split; [intros Hs; exfalso; apply Hs; reflexivity|].
    intros drink. unfold Client.load_cocktail_of_the_day.
    destruct v as [d|]; [|discriminate].
    cbn [JS.then_ Client.response_json Server.body Server.res_json fst snd].
    destruct d; intros [= <-]; repeat split; reflexivity.
  - assert (Hl : Client.load_cocktail_of_the_day None
                   (JS.Fulfilled (Server.res_status_send code (String c rest)))
                 = (None, Client.FailedToLoad)).
    { unfold Client.load_cocktail_of_the_day, Client.response_json.
      cbn [JS.then_ Server.body Server.res_status_send]. rewrite Hb. reflexivity. }
    rewrite Hl. split; [intros _; reflexivity|].
    intros drink Hd. discriminate Hd.
Qed.

End Pages.

Lemma home_rating_line_cases_witness :
  @Client.home_rating_line Scenarios.browser Examples.march_store "A"
  = Some "Average Rating: 4.00 (2 ratings)"%string
  /\ @Client.home_rating_line Scenarios.browser Examples.zero_store "A"
    = Some "Not yet rated"%string.
Proof.
  split.
  - destruct (@home_rating_line_cases Scenarios.browser Examples.march_store "A")
      as [Hl _]; [reflexivity|vm_compute; reflexivity|].
    rewrite Hl. vm_compute. reflexivity.
  - destruct (@home_rating_line_cases Scenarios.browser Examples.zero_store "A")
      as [Hl _]; [reflexivity|vm_compute; reflexivity|].
    rewrite Hl. vm_compute. reflexivity.
Defined.

Lemma info_rating_line_cases_witness :
  @Client.info_rating_line Scenarios.browser Examples.march_store "A"
  = Some (Some "Rating: 4.00/5 (Rated 2 times)"%string).
Proof.
  rewrite (@info_rating_line_cases Scenarios.browser Examples.march_store "A");
    [|reflexivity|vm_compute; reflexivity].
  vm_compute. reflexivity.
Defined.
